(** * ilm_analyzer: archive ingestion and master highlighting

    A shallow embedding of the two pieces of logic of the viewer:

    - [FileUpload.processZipFile], [FileUpload.loadDemoData] and the two
      event handlers of [src/components/FileUpload.tsx];
    - [NodesView.isMasterNode] of [src/views/NodesView.tsx].

    The component code is effectful (React state, [console],
    [localStorage], a [setTimeout] task, the [onDataLoaded] callback) and
    uses [try]/[catch]/[finally]; it is embedded in a small state and
    exception monad over a record [World] of everything it can touch. *)

From Stdlib Require Import Floats Ascii.
From stdpp Require Import base strings gmap list.

Set Default Proof Using "Type".
#[local] Set Warnings "-register-all".

(** ** JavaScript values and string operations *)

Module JS.

(** What [JSON.parse] can return.  Numbers are IEEE doubles. *)
Inductive JSONValue : Type :=
  | JNull
  | JBool (b : bool)
  | JNumber (x : float)
  | JString (s : string)
  | JArray (items : list JSONValue)
  | JObject (members : list (string * JSONValue)).

(** [ToBoolean]: what [!v], [v || d] and [if (v)] look at. *)
Definition truthy (v : JSONValue) : bool :=
  match v with
  | JNull => false
  | JBool b => b
  | JNumber x => negb (PrimFloat.eqb x 0%float || PrimFloat.is_nan x)
  | JString s => negb (String.eqb s "")
  | JArray _ | JObject _ => true
  end.

(** [a || b] on values. *)
Definition or_else (a b : JSONValue) : JSONValue := if truthy a then a else b.

(** An argument of a call: a value, or [undefined]. *)
Inductive Arg : Type :=
  | Undefined
  | Val (v : JSONValue).

(** [null] or [undefined]: the argument carries no data. *)
Definition absent (a : Arg) : Prop := a = Undefined ∨ a = Val JNull.

(** What a [throw] carries: an [Error] instance with its message, or
    anything else. *)
Inductive thrown : Type :=
  | ErrorInstance (message : string)
  | OtherValue.

(** The serialised text [JSON.stringify(v)] of a parsed value, kept
    symbolic. *)
Inductive DOMString : Type :=
  | JSON_stringify (v : JSONValue).

(** [String.prototype.toLowerCase] on ASCII text: the code units [A]..[Z]
    are lowered and the others are left as they are.  On a string with
    other characters the method of the browser also lowers letters
    outside [A]..[Z], so this definition stands for it on ASCII strings
    only; statements that show the lowered text are made for ASCII
    paths. *)
Definition toLowerCase_unit (c : ascii) : ascii :=
  let n := nat_of_ascii c in
  if (65 <=? n) && (n <=? 90) then ascii_of_nat (n + 32) else c.

Fixpoint toLowerCase (s : string) : string :=
  match s with
  | EmptyString => EmptyString
  | String c s' => String (toLowerCase_unit c) (toLowerCase s')
  end.

(** The inverse direction, used only to state case-insensitivity. *)
Definition toUpperCase_unit (c : ascii) : ascii :=
  let n := nat_of_ascii c in
  if (97 <=? n) && (n <=? 122) then ascii_of_nat (n - 32) else c.

Fixpoint toUpperCase (s : string) : string :=
  match s with
  | EmptyString => EmptyString
  | String c s' => String (toUpperCase_unit c) (toUpperCase s')
  end.

(** [s.startsWith(p)] *)
Fixpoint startsWith (s p : string) {struct p} : bool :=
  match p, s with
  | EmptyString, _ => true
  | String a p', String b s' => if Ascii.eqb a b then startsWith s' p' else false
  | String _ _, EmptyString => false
  end.

(** [s.includes(searchString)]: [searchString] occurs somewhere in [s]. *)
Fixpoint includes (s searchString : string) : bool :=
  startsWith s searchString ||
  match s with
  | EmptyString => false
  | String _ s' => includes s' searchString
  end.

(** [parts.join(', ')] *)
Fixpoint join (parts : list string) (sep : string) : string :=
  match parts with
  | [] => ""
  | [p] => p
  | p :: rest => p +:+ sep +:+ join rest sep
  end.

End JS.

Import JS.

(** ** The upload component, [src/components/FileUpload.tsx] *)

Module FileUpload.

(** *** What the component reads *)

(** The text of an archive entry, identified with what [JSON.parse] makes
    of it: a [SyntaxError], or the parsed value. *)
Inductive Content : Type :=
  | NotJSON (message : string)
  | JSONText (v : JSONValue).

(** The outcome of an operation that may throw (or of a promise that may
    reject). *)
Inductive Result (A : Type) : Type :=
  | Return (a : A)
  | Throw (e : thrown).
Arguments Return {A} a.
Arguments Throw {A} e.

(** A member of [contents.files]: the [dir] flag and what
    [zipEntry.async('string')] settles to. *)
Record ZipObject : Type := {
  dir : bool;
  async_string : Result Content
}.

(** [Object.entries(contents.files)], in enumeration order. *)
Definition Files : Type := list (string * ZipObject).

(** A [File] of the browser: its MIME [type], and what [zip.loadAsync]
    settles to on it. *)
Record File : Type := {
  type : string;
  zip_loadAsync : Result Files
}.

(** A [Response] of [fetch]: what [res.json()] settles to. *)
Record Response : Type := {
  Response_json : Result JSONValue
}.

(** The origin serving the demo resources: what [fetch(url)] settles to. *)
Definition Origin : Type := string → Result Response.

(** *** What the component writes *)

(** The eight positional arguments of [onDataLoaded]. *)
Record Bundle : Type := {
  errors : Arg;
  policies : Arg;
  version : Arg;
  shards : Arg;
  allocation : Arg;
  settings : Arg;
  nodesStats : Arg;
  pipelines : Arg
}.

Inductive ConsoleLine : Type :=
  | Log (args : list string)
  | Warn (msg : string) (err : thrown)
  | Error (msg : string) (err : thrown).

(** A task handed to [setTimeout]: the closure of the auxiliary pass over
    the [contents.files] it captured. *)
Inductive Task : Type :=
  | AuxiliaryPass (files : Files).

Record World : Type := {
  isLoading : bool;                        (* React state *)
  error : option string;                   (* React state, [None] is [null] *)
  localStorage : gmap string DOMString;
  console : list ConsoleLine;              (* oldest first *)
  delivered : list Bundle;                 (* calls of [onDataLoaded], oldest first *)
  timers : list Task;                      (* pending [setTimeout] tasks *)
  (* the browser: what [localStorage.setItem(key, value)] throws on a store
     holding [m], when it throws (quota exceeded, storage disabled) *)
  setItem_throws : gmap string DOMString → string → DOMString → option thrown
}.

(** *** The monad: state [World], exceptions [thrown] *)

Definition M (A : Type) : Type := World → Result A * World.

#[export] Instance M_ret : MRet M := λ A a w, (Return a, w).

#[export] Instance M_bind : MBind M := λ A B f m w,
  match m w with
  | (Return a, w') => f a w'
  | (Throw e, w') => (Throw e, w')
  end.

(** [await p] / a call that may throw *)
Definition settle {A} (r : Result A) : M A := λ w, (r, w).

(** [try { body } catch (err) { handler }] *)
Definition try_catch {A} (body : M A) (handler : thrown → M A) : M A := λ w,
  match body w with
  | (Return a, w') => (Return a, w')
  | (Throw e, w') => handler e w'
  end.

(** [try { body } finally { fin }] *)
Definition try_finally {A} (body : M A) (fin : M unit) : M A := λ w,
  match body w with
  | (r, w') =>
      match fin w' with
      | (Return _, w'') => (r, w'')
      | (Throw e, w'') => (Throw e, w'')
      end
  end.

(** [for (const x of xs) { s = body(s, x) }] *)
Fixpoint for_of {A S} (xs : list A) (body : S → A → M S) (s : S) : M S :=
  match xs with
  | [] => mret s
  | x :: xs' => s' ← body s x; for_of xs' body s'
  end.

(** [if (b) { m }] *)
Definition when (b : bool) (m : M unit) : M unit := if b then m else mret tt.

(** The primitive effects.  [setTimeout], the [console] and the callback
    are taken to return normally; [setItem] throws when the browser
    refuses the write. *)

Definition setIsLoading (b : bool) : M unit := λ w,
  (Return tt,
   {| isLoading := b; error := error w; localStorage := localStorage w;
      console := console w; delivered := delivered w; timers := timers w;
      setItem_throws := setItem_throws w |}).

Definition setError (e : option string) : M unit := λ w,
  (Return tt,
   {| isLoading := isLoading w; error := e; localStorage := localStorage w;
      console := console w; delivered := delivered w; timers := timers w;
      setItem_throws := setItem_throws w |}).

Definition localStorage_setItem (key : string) (value : DOMString) : M unit := λ w,
  match setItem_throws w (localStorage w) key value with
  | Some e => (Throw e, w)
  | None =>
      (Return tt,
       {| isLoading := isLoading w; error := error w;
          localStorage := <[key := value]> (localStorage w);
          console := console w; delivered := delivered w; timers := timers w;
          setItem_throws := setItem_throws w |})
  end.

Definition console_write (line : ConsoleLine) : M unit := λ w,
  (Return tt,
   {| isLoading := isLoading w; error := error w; localStorage := localStorage w;
      console := console w ++ [line]; delivered := delivered w; timers := timers w;
      setItem_throws := setItem_throws w |}).

Definition onDataLoaded (b : Bundle) : M unit := λ w,
  (Return tt,
   {| isLoading := isLoading w; error := error w; localStorage := localStorage w;
      console := console w; delivered := delivered w ++ [b]; timers := timers w;
      setItem_throws := setItem_throws w |}).

Definition setTimeout (t : Task) : M unit := λ w,
  (Return tt,
   {| isLoading := isLoading w; error := error w; localStorage := localStorage w;
      console := console w; delivered := delivered w; timers := timers w ++ [t];
      setItem_throws := setItem_throws w |}).

(** [JSON.parse(content)] *)
Definition JSON_parse (content : Content) : M JSONValue :=
  match content with
  | NotJSON message => settle (Throw (ErrorInstance message))
  | JSONText v => mret v
  end.

(** *** [processZipFile] *)

(** The eight recognised files, in the order of the [if]/[else if] chain. *)
Inductive Field : Type :=
  | Errors | Policies | Version | Shards | Allocation | Settings | NodesStats | Pipelines.

#[export] Instance Field_eq_dec : EqDecision Field.
Proof. solve_decision. Defined.

Definition filename (f : Field) : string :=
  match f with
  | Errors => "ilm_explain_only_errors.json"
  | Policies => "ilm_policies.json"
  | Version => "version.json"
  | Shards => "shards.json"
  | Allocation => "allocation_explain.json"
  | Settings => "settings.json"
  | NodesStats => "nodes_stats.json"
  | Pipelines => "pipelines.json"
  end.

Definition label (f : Field) : string :=
  match f with
  | Errors => "ILM Errors"
  | Policies => "ILM Policies"
  | Version => "Version Info"
  | Shards => "Shards Info"
  | Allocation => "Allocation Info"
  | Settings => "Settings Info"
  | NodesStats => "Nodes Stats"
  | Pipelines => "Pipelines"
  end.

Definition table : list Field :=
  [Errors; Policies; Version; Shards; Allocation; Settings; NodesStats; Pipelines].

(** The [let] variables of [processZipFile] and the [foundFiles] array. *)
Record Locals : Type := {
  errorsJson : JSONValue;
  policiesJson : JSONValue;
  versionJson : JSONValue;
  shardsJson : JSONValue;
  allocationJson : JSONValue;
  settingsJson : JSONValue;
  nodesStatsJson : JSONValue;
  pipelinesJson : JSONValue;
  foundFiles : list string
}.

Definition initial : Locals :=
  {| errorsJson := JNull; policiesJson := JNull; versionJson := JNull;
     shardsJson := JNull; allocationJson := JNull; settingsJson := JNull;
     nodesStatsJson := JNull; pipelinesJson := JNull; foundFiles := [] |}.

(** [xJson = json; foundFiles.push(name)] for the variable of field [f]. *)
Definition found (f : Field) (json : JSONValue) (l : Locals) : Locals :=
  {| errorsJson := if decide (f = Errors) then json else errorsJson l;
     policiesJson := if decide (f = Policies) then json else policiesJson l;
     versionJson := if decide (f = Version) then json else versionJson l;
     shardsJson := if decide (f = Shards) then json else shardsJson l;
     allocationJson := if decide (f = Allocation) then json else allocationJson l;
     settingsJson := if decide (f = Settings) then json else settingsJson l;
     nodesStatsJson := if decide (f = NodesStats) then json else nodesStatsJson l;
     pipelinesJson := if decide (f = Pipelines) then json else pipelinesJson l;
     foundFiles := foundFiles l ++ [label f] |}.

(** The variable of a field. *)
Definition var (f : Field) (l : Locals) : JSONValue :=
  match f with
  | Errors => errorsJson l
  | Policies => policiesJson l
  | Version => versionJson l
  | Shards => shardsJson l
  | Allocation => allocationJson l
  | Settings => settingsJson l
  | NodesStats => nodesStatsJson l
  | Pipelines => pipelinesJson l
  end.

(** The [if]/[else if] chain on [normalizedPath], lines 52-76. *)
Definition route (normalizedPath : string) (json : JSONValue) (l : Locals) : Locals :=
  if includes normalizedPath "ilm_explain_only_errors.json" then found Errors json l
  else if includes normalizedPath "ilm_policies.json" then found Policies json l
  else if includes normalizedPath "version.json" then found Version json l
  else if includes normalizedPath "shards.json" then found Shards json l
  else if includes normalizedPath "allocation_explain.json" then found Allocation json l
  else if includes normalizedPath "settings.json" then found Settings json l
  else if includes normalizedPath "nodes_stats.json" then found NodesStats json l
  else if includes normalizedPath "pipelines.json" then found Pipelines json l
  else l.

(** The body of the primary loop, lines 42-80. *)
Definition primary (l : Locals) (entry : string * ZipObject) : M Locals :=
  let '(path, zipEntry) := entry in
  if dir zipEntry then mret l
  else
    let normalizedPath := toLowerCase path in
    console_write (Log ["Processing file:"; normalizedPath]);;
    try_catch
      (content ← settle (async_string zipEntry);
       json ← JSON_parse content;
       mret (route normalizedPath json l))
      (λ err, console_write (Warn ("Failed to process file " +:+ path +:+ ":") err);;
              mret l).

(** The body of the deferred loop, lines 97-117. *)
Definition auxiliary (_ : unit) (entry : string * ZipObject) : M unit :=
  let '(path, zipEntry) := entry in
  if dir zipEntry then mret tt
  else
    let normalizedPath := toLowerCase path in
    when (includes normalizedPath "index_templates.json"
          || includes normalizedPath "alias.json"
          || includes normalizedPath "aliases.json")
      (try_catch
         (content ← settle (async_string zipEntry);
          json ← JSON_parse content;
          if includes normalizedPath "index_templates.json" then
            localStorage_setItem "index_templates" (JSON_stringify json)
          else
            when (includes normalizedPath "alias.json"
                  || includes normalizedPath "aliases.json")
              (localStorage_setItem "aliases" (JSON_stringify json)))
         (λ err, console_write
                   (Warn ("Failed to process optional file " +:+ path +:+ ":") err))).

(** Running a task of [setTimeout]. *)
Definition run (t : Task) : M unit :=
  match t with
  | AuxiliaryPass files => for_of files auxiliary tt
  end.

(** The event loop reaching the pending tasks: each runs once, in order. *)
Definition run_timers : M unit := λ w,
  for_of (timers w) (λ _ t, run t) tt
    {| isLoading := isLoading w; error := error w; localStorage := localStorage w;
       console := console w; delivered := delivered w; timers := [];
       setItem_throws := setItem_throws w |}.

(** [missingFiles], lines 89-91. *)
Definition missingFiles (l : Locals) : list string :=
  (if truthy (errorsJson l) then [] else ["ilm_explain_only_errors.json"])
  ++ (if truthy (policiesJson l) then [] else ["ilm_policies.json"]).

Definition advisory (missing : list string) : string :=
  "Note: Some ILM files are missing (" +:+ join missing ", "
  +:+ "), but you can still view available data.".

(** The arguments of the call of lines 126-135. *)
Definition bundle_of (l : Locals) : Bundle :=
  {| errors := Val (errorsJson l);
     policies := Val (policiesJson l);
     version := Val (versionJson l);
     shards := Val (or_else (shardsJson l) (JArray []));
     allocation := Val (allocationJson l);
     settings := Val (settingsJson l);
     nodesStats := Val (nodesStatsJson l);
     pipelines := Val (pipelinesJson l) |}.

(** [err instanceof Error ? err.message : 'Failed to process ZIP file'],
    line 138. *)
Definition message_of (err : thrown) : string :=
  match err with
  | ErrorInstance message => message
  | OtherValue => "Failed to process ZIP file"
  end.

Definition processZipFile (file : File) : M unit :=
  try_finally
    (try_catch
       (setIsLoading true;;
        setError None;;
        contents ← settle (zip_loadAsync file);
        l ← for_of contents primary initial;
        when (0 <? length (foundFiles l))
          (console_write (Log ["Found files:"; join (foundFiles l) ", "]));;
        when (negb (truthy (errorsJson l)) || negb (truthy (policiesJson l)))
          (setError (Some (advisory (missingFiles l))));;
        setTimeout (AuxiliaryPass contents);;
        when (truthy (settingsJson l))
          (localStorage_setItem "settings" (JSON_stringify (settingsJson l)));;
        onDataLoaded (bundle_of l))
       (λ err,
          console_write (Error "ZIP processing error:" err);;
          setError (Some (message_of err))))
    (setIsLoading false).

(** [handleDrop]: [e.dataTransfer.files[0]] is [None] when nothing was
    dropped. *)
Definition handleDrop (file : option File) : M unit :=
  match file with
  | Some f =>
      if String.eqb (type f) "application/zip" then processZipFile f
      else setError (Some "Please upload a ZIP file")
  | None => setError (Some "Please upload a ZIP file")
  end.

(** [handleFileChange]: [e.target.files?.[0]] *)
Definition handleFileChange (file : option File) : M unit :=
  match file with
  | Some f => processZipFile f
  | None => mret tt
  end.

(** How the component renders [error], lines 272-280: the blue note box
    for a message starting with [Note:], the red box otherwise. *)
Definition is_note (message : string) : bool := startsWith message "Note:".

(** *** [loadDemoData] *)

(** [Promise.all]: every result in order, or a rejection if one rejects. *)
Fixpoint Promise_all {A} (ps : list (Result A)) : Result (list A) :=
  match ps with
  | [] => Return []
  | p :: ps' =>
      match p, Promise_all ps' with
      | Return a, Return rest => Return (a :: rest)
      | Throw e, _ => Throw e
      | Return _, Throw e => Throw e
      end
  end.

Definition demo_urls : list string :=
  ["/ilm_explain_only_errors.json"; "/ilm_policies.json"; "/index_templates.json";
   "/aliases.json"; "/shards.json"; "/allocation_explain.json"; "/settings.json";
   "/nodes_stats.json"; "/pipelines.json"].

Definition loadDemoData (fetch : Origin) : M unit :=
  try_finally
    (try_catch
       (setIsLoading true;;
        setError None;;
        responses ← settle (Promise_all (fetch <$> demo_urls));
        jsons ← settle (Promise_all (Response_json <$> responses));
        match jsons with
        | [errorsJson; policiesJson; templatesJson; aliasesJson; shardsJson;
           allocationJson; settingsJson; nodesStatsJson; pipelinesJson] =>
            localStorage_setItem "index_templates" (JSON_stringify templatesJson);;
            localStorage_setItem "aliases" (JSON_stringify aliasesJson);;
            when (truthy settingsJson)
              (localStorage_setItem "settings" (JSON_stringify settingsJson));;
            onDataLoaded
              {| errors := Val errorsJson;
                 policies := Val policiesJson;
                 version := Undefined;
                 shards := Val shardsJson;
                 allocation := Val allocationJson;
                 settings := Val settingsJson;
                 nodesStats := Val nodesStatsJson;
                 pipelines := Val pipelinesJson |}
        | _ => settle (Throw OtherValue) (* nine promises give nine values *)
        end)
       (λ err, setError (Some "Failed to load demo data")))
    (setIsLoading false).

(** *** Notions used to state the properties *)

(** The test the chain makes for the rule of [f] on the path of an entry. *)
Definition matches (path : string) (f : Field) : bool :=
  includes (toLowerCase path) (filename f).

(** The first rule of the table, in order, whose filename the path
    includes. *)
Definition applies (normalizedPath : string) : option Field :=
  List.find (λ f, includes normalizedPath (filename f)) table.

(** The position of a rule in the chain. *)
Definition rank (f : Field) : nat :=
  match f with
  | Errors => 0 | Policies => 1 | Version => 2 | Shards => 3
  | Allocation => 4 | Settings => 5 | NodesStats => 6 | Pipelines => 7
  end.

(** What an entry decodes and parses to, when it does both. *)
Definition parsed (zipEntry : ZipObject) : option JSONValue :=
  match async_string zipEntry with
  | Return (JSONText v) => Some v
  | Return (NotJSON _) | Throw _ => None
  end.

(** The assignment an entry makes in the primary loop, if any: the field
    whose variable it sets, and the value. *)
Definition assigns (entry : string * ZipObject) : option (Field * JSONValue) :=
  if dir entry.2 then None
  else
    match parsed entry.2, applies (toLowerCase entry.1) with
    | Some v, Some f => Some (f, v)
    | _, _ => None
    end.

(** The values assigned to the variable of [f], in enumeration order. *)
Definition assigned (f : Field) (files : Files) : list JSONValue :=
  omap (λ entry,
          match assigns entry with
          | Some (g, v) => if decide (g = f) then Some v else None
          | None => None
          end) files.

(** The locals after the primary loop over [files], started in [l]. *)
Definition scan (files : Files) (l : Locals) : Locals :=
  foldl (λ l entry,
           match assigns entry with
           | Some (f, v) => found f v l
           | None => l
           end) l files.

(** What the variable of [f] holds after the loop over [files]: the last
    value assigned to it, [null] when there was none. *)
Definition held (f : Field) (files : Files) : JSONValue :=
  default JNull (last (assigned f files)).

(** Some non-directory entry has the filename of [f] in its lower-cased
    path. *)
Definition has_file (f : Field) (files : Files) : bool :=
  existsb (λ entry, negb (dir entry.2) && matches entry.1 f) files.

(** The argument of [onDataLoaded] for a field. *)
Definition arg (f : Field) (b : Bundle) : Arg :=
  match f with
  | Errors => errors b
  | Policies => policies b
  | Version => version b
  | Shards => shards b
  | Allocation => allocation b
  | Settings => settings b
  | NodesStats => nodesStats b
  | Pipelines => pipelines b
  end.

(** Appending lines to the console. *)
Definition logged (lines : list ConsoleLine) (w : World) : World :=
  {| isLoading := isLoading w; error := error w; localStorage := localStorage w;
     console := console w ++ lines; delivered := delivered w; timers := timers w;
     setItem_throws := setItem_throws w |}.

(** What the write of line 122 throws after the loop over [files], when
    it is made and the browser refuses it. *)
Definition settings_throws (files : Files) (w : World) : option thrown :=
  if truthy (held Settings files)
  then setItem_throws w (localStorage w) "settings"
         (JSON_stringify (held Settings files))
  else None.

(** The world after [processZipFile] on an archive that opened with
    [files], the console aside: the one of line 135 when the write of
    settings does not throw, the one of the outer [catch] when it does. *)
Definition opened (files : Files) (w : World) : World :=
  let l := scan files initial in
  match settings_throws files w with
  | None =>
      {| isLoading := false;
         error := if truthy (errorsJson l) && truthy (policiesJson l) then None
                  else Some (advisory (missingFiles l));
         localStorage := if truthy (settingsJson l)
                         then <["settings" := JSON_stringify (settingsJson l)]> (localStorage w)
                         else localStorage w;
         console := console w;
         delivered := delivered w ++ [bundle_of l];
         timers := timers w ++ [AuxiliaryPass files];
         setItem_throws := setItem_throws w |}
  | Some err =>
      {| isLoading := false;
         error := Some (message_of err);
         localStorage := localStorage w;
         console := console w;
         delivered := delivered w;
         timers := timers w ++ [AuxiliaryPass files];
         setItem_throws := setItem_throws w |}
  end.

(** The world after [processZipFile] on an archive that did not open. *)
Definition unopened (err : thrown) (w : World) : World :=
  {| isLoading := false;
     error := Some (message_of err);
     localStorage := localStorage w;
     console := console w ++ [Error "ZIP processing error:" err];
     delivered := delivered w;
     timers := timers w;
     setItem_throws := setItem_throws w |}.

(** A freshly mounted component in an empty browser profile whose storage
    takes every write. *)
Definition fresh : World :=
  {| isLoading := false; error := None; localStorage := ∅;
     console := []; delivered := []; timers := [];
     setItem_throws := λ _ _ _, None |}.

(** The same in a browser whose storage refuses every write with [err]. *)
Definition refusing (err : thrown) : World :=
  {| isLoading := false; error := None; localStorage := ∅;
     console := []; delivered := []; timers := [];
     setItem_throws := λ _ _ _, Some err |}.

(** The storage of [w] takes every write. *)
Definition unlimited (w : World) : Prop :=
  ∀ m key value, setItem_throws w m key value = None.

(** A file entry holding JSON text, a file entry holding other text, a
    directory entry, and an archive that opens. *)
Definition json_entry (v : JSONValue) : ZipObject :=
  {| dir := false; async_string := Return (JSONText v) |}.

Definition text_entry (message : string) : ZipObject :=
  {| dir := false; async_string := Return (NotJSON message) |}.

Definition zip (files : Files) : File :=
  {| type := "application/zip"; zip_loadAsync := Return files |}.

(** What a demo resource settles to: the fetch, then the decode. *)
Definition resource (fetch : Origin) (url : string) : Result JSONValue :=
  match fetch url with
  | Return res => Response_json res
  | Throw e => Throw e
  end.


(** *** The deferred pass and the console, in closed form *)

(** The write an entry makes in the deferred loop, if any: the key and the
    value. *)
Definition stores (entry : string * ZipObject) : option (string * JSONValue) :=
  if dir entry.2 then None
  else
    let normalizedPath := toLowerCase entry.1 in
    match parsed entry.2 with
    | Some v =>
        if includes normalizedPath "index_templates.json" then
          Some ("index_templates", v)
        else if includes normalizedPath "alias.json"
                || includes normalizedPath "aliases.json" then
          Some ("aliases", v)
        else None
    | None => None
    end.

(** The values written under [key] by the deferred loop, in enumeration
    order. *)
Definition stored (key : string) (files : Files) : list JSONValue :=
  omap (λ entry,
          match stores entry with
          | Some (k, v) => if decide (k = key) then Some v else None
          | None => None
          end) files.

(** The store after the deferred loop over [files], started on [m]. *)
Definition aux_store (files : Files) (m : gmap string DOMString)
  : gmap string DOMString :=
  foldl (λ m entry,
           match stores entry with
           | Some (key, v) => <[key := JSON_stringify v]> m
           | None => m
           end) m files.

(** The same when the browser refuses some writes: a refused write is
    caught in the loop and leaves the store as it was. *)
Definition aux_store_with
  (throws : gmap string DOMString → string → DOMString → option thrown)
  (files : Files) (m : gmap string DOMString) : gmap string DOMString :=
  foldl (λ m entry,
           match stores entry with
           | Some (key, v) =>
               match throws m key (JSON_stringify v) with
               | None => <[key := JSON_stringify v]> m
               | Some _ => m
               end
           | None => m
           end) m files.

Definition timers_store_with
  (throws : gmap string DOMString → string → DOMString → option thrown)
  (tasks : list Task) (m : gmap string DOMString) : gmap string DOMString :=
  foldl (λ m t, match t with
                | AuxiliaryPass files => aux_store_with throws files m
                end) m tasks.

(** A path of ASCII code units, on which [toLowerCase] is that of the
    browser. *)
Fixpoint is_ascii (path : string) : bool :=
  match path with
  | EmptyString => true
  | String c rest => (nat_of_ascii c <? 128) && is_ascii rest
  end.

(** The store after the pending tasks, run in order. *)
Definition timers_store (tasks : list Task) (m : gmap string DOMString)
  : gmap string DOMString :=
  foldl (λ m t, match t with AuxiliaryPass files => aux_store files m end) m tasks.

(** A world with another store and more console lines. *)
Definition deferred (m : gmap string DOMString) (lines : list ConsoleLine)
  (w : World) : World :=
  {| isLoading := isLoading w; error := error w; localStorage := m;
     console := console w ++ lines; delivered := delivered w; timers := timers w;
     setItem_throws := setItem_throws w |}.

(** The console lines of one turn of the primary loop. *)
Definition primary_lines (entry : string * ZipObject) : list ConsoleLine :=
  if dir entry.2 then []
  else
    Log ["Processing file:"; toLowerCase entry.1]
    :: match async_string entry.2 with
       | Return (JSONText _) => []
       | Return (NotJSON message) =>
           [Warn ("Failed to process file " +:+ entry.1 +:+ ":")
              (ErrorInstance message)]
       | Throw e => [Warn ("Failed to process file " +:+ entry.1 +:+ ":") e]
       end.

(** The labels of the assignments of the primary loop, in order. *)
Definition labels (files : Files) : list string :=
  (λ a, label a.1) <$> omap assigns files.

(** The store after [processZipFile] on an opened archive and the
    deferred pass it schedules. *)
Definition ingested (files : Files) (m : gmap string DOMString)
  : gmap string DOMString :=
  aux_store files
    (if truthy (held Settings files)
     then <["settings" := JSON_stringify (held Settings files)]> m
     else m).

(** What an ingestion of [files] writes under [key], if anything: the last
    value of the deferred pass for its two keys, the settings value when
    it is truthy for [settings]. *)
Definition written (files : Files) (key : string) : option DOMString :=
  match last (stored key files) with
  | Some v => Some (JSON_stringify v)
  | None =>
      if decide (key = "settings") then
        if truthy (held Settings files)
        then Some (JSON_stringify (held Settings files))
        else None
      else None
  end.

(** From the store [m] to the store [m'] no key is lost, and every key
    other than the three of the component keeps its value. *)
Definition kept (m m' : gmap string DOMString) : Prop :=
  (∀ key, is_Some (m !! key) → is_Some (m' !! key))
  ∧ (∀ key, key ≠ "index_templates" → key ≠ "aliases" → key ≠ "settings" →
            m' !! key = m !! key).

End FileUpload.

(** ** The node list, [src/views/NodesView.tsx] *)

Module NodesView.

(** The two fields of [MasterNode] that the view reads. *)
Record MasterNode : Type := {
  id : string;
  node : string
}.

(** A member of [nodesData.nodes]; of its fields only [name] matters to the
    highlighting. *)
Record NodeRecord : Type := {
  name : string;
  ip : string;
  roles : list string
}.

Section View.

(** The [masterNode] prop; [None] when it is not passed. *)
Variable masterNode : option MasterNode.

Definition isMasterNode (nodeId nodeName : string) : bool :=
  match masterNode with
  | None => false
  | Some m => String.eqb (id m) nodeId || String.eqb (node m) nodeName
  end.

(** The cards rendered for [Object.entries(nodes)]: each node with its
    [isMaster] flag. *)
Definition cards (nodes : list (string * NodeRecord))
  : list (string * NodeRecord * bool) :=
  (λ '(nodeId, n), (nodeId, n, isMasterNode nodeId (name n))) <$> nodes.

End View.

(** *** [NodeAttributes] *)

(** What a table cell shows: the text [JSON.stringify(value)] or the text
    [value.toString()], both kept symbolic. *)
Inductive Text : Type :=
  | Stringified (v : JSONValue)
  | ToString (v : JSONValue).

(** [typeof value] *)
Definition typeof (value : JSONValue) : string :=
  match value with
  | JNull | JArray _ | JObject _ => "object"
  | JBool _ => "boolean"
  | JNumber _ => "number"
  | JString _ => "string"
  end.

(** [value.toString()]: a [TypeError] on [null], which has no properties. *)
Definition toString (value : JSONValue) : FileUpload.Result Text :=
  match value with
  | JNull =>
      FileUpload.Throw
        (ErrorInstance "Cannot read properties of null (reading 'toString')")
  | _ => FileUpload.Return (ToString value)
  end.

(** The cell of line 48. *)
Definition cell (value : JSONValue) : FileUpload.Result Text :=
  if String.eqb (typeof value) "object" then FileUpload.Return (Stringified value)
  else toString value.

(** The rows of lines 44-51, over [Object.entries(attributes || {})];
    [attributes] is [None] when the node has none. *)
Fixpoint rows (entries : list (string * JSONValue))
  : FileUpload.Result (list (string * Text)) :=
  match entries with
  | [] => FileUpload.Return []
  | (key, value) :: rest =>
      match cell value with
      | FileUpload.Throw e => FileUpload.Throw e
      | FileUpload.Return text =>
          match rows rest with
          | FileUpload.Throw e => FileUpload.Throw e
          | FileUpload.Return more => FileUpload.Return ((key, text) :: more)
          end
      end
  end.

(** What [NodeAttributes] renders below its button in state [isExpanded]. *)
Definition NodeAttributes (attributes : option (list (string * JSONValue)))
  (isExpanded : bool) : FileUpload.Result (list (string * Text)) :=
  if isExpanded then rows (default [] attributes) else FileUpload.Return [].

(** [toggleExpand] *)
Definition toggleExpand (isExpanded : bool) : bool := negb isExpanded.

End NodesView.

(** * Properties *)

(** ** Strings *)

Module JSFacts.

Lemma startsWith_spec (s p : string) :
  startsWith s p = true ↔ ∃ post, s = p +:+ post.
Proof.
  revert s. induction p as [|a p IH]; intros s; simpl.
  - split; [intros _; by exists s | done].
  - destruct s as [|b s].
    + split; [done | intros [post H]; discriminate H].
    + destruct (Ascii.eqb_spec a b) as [->|Hne].
      * rewrite IH. split; intros [post H]; exists post.
        -- by rewrite H.
        -- by injection H.
      * split; [done | intros [post H]; injection H; intros _ E; by destruct Hne].
Qed.

Lemma includes_startsWith (s t : string) :
  startsWith s t = true → includes s t = true.
Proof. intros H. destruct s; simpl; by rewrite H. Qed.

Lemma includes_spec (s t : string) :
  includes s t = true ↔ ∃ pre post, s = pre +:+ t +:+ post.
Proof.
  split.
  - induction s as [|c s IH]; simpl; rewrite orb_true_iff.
    + intros [H|H]; [|done].
      apply startsWith_spec in H as [post H]. by exists "", post.
    + intros [H|H].
      * apply startsWith_spec in H as [post H]. by exists "", post.
      * destruct (IH H) as (pre & post & ->). by exists (String c pre), post.
  - intros (pre & post & ->). induction pre as [|c pre IH]; simpl.
    + apply includes_startsWith, startsWith_spec. by exists post.
    + by rewrite IH, orb_true_r.
Qed.

Lemma toLowerCase_unit_upper (c : ascii) :
  toLowerCase_unit (toUpperCase_unit c) = toLowerCase_unit c.
Proof. by destruct c as [[] [] [] [] [] [] [] []]. Qed.

Lemma toLowerCase_unit_idem (c : ascii) :
  toLowerCase_unit (toLowerCase_unit c) = toLowerCase_unit c.
Proof. by destruct c as [[] [] [] [] [] [] [] []]. Qed.

Lemma toLowerCase_toUpperCase (s : string) :
  toLowerCase (toUpperCase s) = toLowerCase s.
Proof.
  induction s as [|c s IH]; simpl; [done|].
  by rewrite toLowerCase_unit_upper, IH.
Qed.

Lemma toLowerCase_idem (s : string) :
  toLowerCase (toLowerCase s) = toLowerCase s.
Proof.
  induction s as [|c s IH]; simpl; [done|].
  by rewrite toLowerCase_unit_idem, IH.
Qed.

End JSFacts.

(** ** The primary pass *)

Module FileUploadFacts.

Import FileUpload JSFacts.

Ltac run := unfold mbind, M_bind, mret, M_ret, settle, try_catch, try_finally,
  when, console_write, setIsLoading, setError, setTimeout, onDataLoaded,
  localStorage_setItem, JSON_parse in *.

Lemma logged_nil (w : World) : logged [] w = w.
Proof. destruct w. unfold logged; simpl. by rewrite app_nil_r. Qed.

Lemma logged_app (l1 l2 : list ConsoleLine) (w : World) :
  logged l2 (logged l1 w) = logged (l1 ++ l2) w.
Proof. unfold logged; simpl. by rewrite app_assoc. Qed.

(** The chain takes the branch of the first rule that applies. *)
Lemma route_applies (normalizedPath : string) (json : JSONValue) (l : Locals) :
  route normalizedPath json l =
  match applies normalizedPath with
  | Some f => found f json l
  | None => l
  end.
Proof.
  unfold route, applies, table; simpl.
  repeat (destruct (includes normalizedPath _); [reflexivity|]).
  reflexivity.
Qed.

(** One turn of the loop never throws, assigns what [assigns] says, and
    writes to the console only. *)
Lemma primary_run (l : Locals) (entry : string * ZipObject) (w : World) :
  ∃ lines,
    primary l entry w =
    (Return match assigns entry with
            | Some (f, v) => found f v l
            | None => l
            end,
     logged lines w).
Proof.
  destruct entry as [path zipEntry].
  unfold primary, assigns, parsed; simpl.
  destruct (dir zipEntry).
  - exists []. by rewrite logged_nil.
  - run. simpl.
    destruct (async_string zipEntry) as [[message|v]|e]; simpl.
    + eexists ([_] ++ [_]). rewrite <- logged_app. reflexivity.
    + exists [Log ["Processing file:"; toLowerCase path]].
      rewrite route_applies. by destruct (applies _).
    + eexists ([_] ++ [_]). rewrite <- logged_app. reflexivity.
Qed.

Lemma for_of_primary (files : Files) (l : Locals) (w : World) :
  ∃ lines, for_of files primary l w = (Return (scan files l), logged lines w).
Proof.
  revert l w. induction files as [|entry files IH]; intros l w; simpl.
  - exists []. by rewrite logged_nil.
  - destruct (primary_run l entry w) as [l1 H1].
    unfold mbind, M_bind. rewrite H1.
    destruct (IH (match assigns entry with
                  | Some (f, v) => found f v l
                  | None => l
                  end) (logged l1 w)) as [l2 H2].
    exists (l1 ++ l2). by rewrite H2, logged_app.
Qed.

(** *** What the loop leaves in the variables *)

Lemma var_found (f g : Field) (v : JSONValue) (l : Locals) :
  var f (found g v l) = if decide (g = f) then v else var f l.
Proof. by destruct f, g. Qed.

Lemma scan_app (pre post : Files) (l : Locals) :
  scan (pre ++ post) l = scan post (scan pre l).
Proof. apply foldl_app. Qed.

Lemma assigned_app (f : Field) (pre post : Files) :
  assigned f (pre ++ post) = assigned f pre ++ assigned f post.
Proof. apply omap_app. Qed.

Lemma assigned_cons (f : Field) (entry : string * ZipObject) (files : Files) :
  assigned f (entry :: files) =
  match assigns entry with
  | Some (g, v) => if decide (g = f) then v :: assigned f files else assigned f files
  | None => assigned f files
  end.
Proof.
  unfold assigned; simpl.
  destruct (assigns entry) as [[g v]|]; [by destruct (decide (g = f))|done].
Qed.

Lemma var_scan (f : Field) (files : Files) (l : Locals) :
  var f (scan files l) = default (var f l) (last (assigned f files)).
Proof.
  induction files as [|entry files IH] using rev_ind; [done|].
  rewrite scan_app, assigned_app. unfold scan at 1, assigned at 2; simpl.
  destruct (assigns entry) as [[g v]|]; simpl.
  - rewrite var_found. destruct (decide (g = f)); simpl.
    + by rewrite last_snoc.
    + by rewrite app_nil_r.
  - by rewrite app_nil_r.
Qed.

Lemma var_scan_initial (f : Field) (files : Files) :
  var f (scan files initial) = held f files.
Proof. rewrite var_scan. by destruct f. Qed.

(** An archive that opens: the call returns, and leaves [opened]. *)
Lemma processZipFile_opened (file : File) (files : Files) (w : World) :
  zip_loadAsync file = Return files →
  ∃ lines, processZipFile file w = (Return tt, logged lines (opened files w)).
Proof.
  intros Hopen. unfold processZipFile.
  unfold try_finally, try_catch at 1.
  unfold mbind at 1 2 3, M_bind at 1 2 3. unfold setIsLoading at 1, setError at 1.
  unfold settle; rewrite Hopen. simpl.
  unfold mbind at 1, M_bind at 1.
  match goal with |- context [for_of files primary initial ?w0] =>
    destruct (for_of_primary files initial w0) as [lines ->] end.
  unfold opened, settings_throws.
  rewrite <- (var_scan_initial Settings files). simpl.
  set (l := scan files initial).
  destruct (0 <? length (foundFiles l));
    destruct (truthy (errorsJson l)); destruct (truthy (policiesJson l));
    destruct (truthy (settingsJson l)); run; simpl;
    try destruct (setItem_throws w (localStorage w) "settings"
                    (JSON_stringify (settingsJson l))) as [err|];
    simpl; eexists; unfold logged; simpl; rewrite <- ?app_assoc; reflexivity.
Qed.

(** An archive that does not open: the [catch] of line 136. *)
Lemma processZipFile_unopened (file : File) (err : thrown) (w : World) :
  zip_loadAsync file = Throw err →
  processZipFile file w = (Return tt, unopened err w).
Proof.
  intros Hopen. unfold processZipFile. run. rewrite Hopen. simpl.
  reflexivity.
Qed.

(** A rule applies only to a path that passes its test. *)
Lemma applies_includes (normalizedPath : string) (f : Field) :
  applies normalizedPath = Some f → includes normalizedPath (filename f) = true.
Proof. intros H. by apply List.find_some in H as [_ H]. Qed.

(** A variable is assigned only from an entry that carries its filename. *)
Lemma assigned_has_file (f : Field) (files : Files) :
  has_file f files = false → assigned f files = [].
Proof.
  induction files as [|entry files IH]; [done|]. simpl.
  rewrite orb_false_iff. intros [Hentry Hfiles]. rewrite (IH Hfiles).
  unfold assigns. destruct (dir entry.2); [done|].
  destruct (parsed entry.2); [|done].
  destruct (applies (toLowerCase entry.1)) as [g|] eqn:Hg; [|done].
  destruct (decide (g = f)) as [->|]; [|done].
  apply applies_includes in Hg. simpl in Hentry. unfold matches in Hentry. congruence.
Qed.

(** The arguments of the call, read off the variables. *)
Lemma arg_bundle_of (f : Field) (l : Locals) :
  arg f (bundle_of l) =
  Val (if decide (f = Shards) then or_else (var f l) (JArray []) else var f l).
Proof. by destruct f. Qed.

(** The result and the delivered bundle of an archive that opened. *)
Lemma processZipFile_returns (file : File) (w : World) :
  (processZipFile file w).1 = Return tt.
Proof.
  destruct (zip_loadAsync file) as [files|err] eqn:Hopen.
  - destruct (processZipFile_opened file files w Hopen) as [lines ->]. done.
  - by rewrite (processZipFile_unopened file err w Hopen).
Qed.

Lemma processZipFile_world (file : File) (files : Files) (w : World) :
  zip_loadAsync file = Return files →
  let w' := (processZipFile file w).2 in
  isLoading w' = isLoading (opened files w)
  ∧ error w' = error (opened files w)
  ∧ localStorage w' = localStorage (opened files w)
  ∧ delivered w' = delivered (opened files w)
  ∧ timers w' = timers (opened files w).
Proof.
  intros Hopen. destruct (processZipFile_opened file files w Hopen) as [lines ->].
  done.
Qed.

Lemma processZipFile_oracle (file : File) (w : World) :
  setItem_throws (processZipFile file w).2 = setItem_throws w.
Proof.
  destruct (zip_loadAsync file) as [files|err] eqn:Hopen.
  - destruct (processZipFile_opened file files w Hopen) as [lines ->].
    simpl. unfold opened. by destruct (settings_throws files w).
  - by rewrite (processZipFile_unopened file err w Hopen).
Qed.

(** When the write of settings does not throw, the call of line 126 is
    made. *)
Lemma processZipFile_delivers (file : File) (files : Files) (w : World) :
  zip_loadAsync file = Return files →
  settings_throws files w = None →
  delivered (processZipFile file w).2
  = delivered w ++ [bundle_of (scan files initial)].
Proof.
  intros Hopen Hok.
  destruct (processZipFile_world file files w Hopen) as (_&_&_&->&_).
  unfold opened. by rewrite Hok.
Qed.

(** When it throws, the outer [catch] is taken after the task was
    scheduled: no call, no write, the message as the error. *)
Lemma processZipFile_refused (file : File) (files : Files) (err : thrown) (w : World) :
  zip_loadAsync file = Return files →
  settings_throws files w = Some err →
  delivered (processZipFile file w).2 = delivered w
  ∧ error (processZipFile file w).2 = Some (message_of err)
  ∧ localStorage (processZipFile file w).2 = localStorage w
  ∧ timers (processZipFile file w).2 = timers w ++ [AuxiliaryPass files]
  ∧ isLoading (processZipFile file w).2 = false.
Proof.
  intros Hopen Hthrows.
  destruct (processZipFile_world file files w Hopen) as (-> & -> & -> & -> & ->).
  unfold opened. by rewrite Hthrows.
Qed.

(** *** Filename matching *)

(** C6: the test made for a rule on an entry's path succeeds exactly when
    the lower-cased path contains the rule's filename as a substring; it
    does not depend on the case of the path; a non-directory entry that
    parses is routed by these tests, taken in table order; and
    [Data/ILM_Policies.JSON] passes the test of the policies rule and
    populates the policies field. *)
Theorem C6_matching_case_insensitive_substring :
  (∀ path f,
     matches path f = true
     ↔ ∃ pre post, toLowerCase path = pre +:+ filename f +:+ post)
  ∧ (∀ path path' f,
       toLowerCase path = toLowerCase path' → matches path f = matches path' f)
  ∧ (∀ path f, matches (toUpperCase path) f = matches path f)
  ∧ (∀ path f, matches (toLowerCase path) f = matches path f)
  ∧ (∀ path zipEntry v l w,
       dir zipEntry = false → parsed zipEntry = Some v →
       ∃ lines,
         primary l (path, zipEntry) w =
         (Return match List.find (matches path) table with
                 | Some f => found f v l
                 | None => l
                 end,
          logged lines w))
  ∧ matches "Data/ILM_Policies.JSON" Policies = true
  ∧ delivered (processZipFile
                 (zip [("Data/ILM_Policies.JSON", json_entry (JObject []))]) fresh).2
    = [{| errors := Val JNull; policies := Val (JObject []); version := Val JNull;
          shards := Val (JArray []); allocation := Val JNull; settings := Val JNull;
          nodesStats := Val JNull; pipelines := Val JNull |}].
Proof.
  split_and!.
  - intros path f. apply includes_spec.
  - intros path path' f H. unfold matches. by rewrite H.
  - intros path f. unfold matches. by rewrite toLowerCase_toUpperCase.
  - intros path f. unfold matches. by rewrite toLowerCase_idem.
  - intros path zipEntry v l w Hdir Hv.
    destruct (primary_run l (path, zipEntry) w) as [lines H].
    exists lines. rewrite H. unfold assigns; cbn [fst snd]. rewrite Hdir, Hv.
    change (applies (toLowerCase path)) with (List.find (matches path) table).
    by destruct (List.find (matches path) table).
  - reflexivity.
  - reflexivity.
Qed.

(** The rule that applies is the first one in the chain whose test
    succeeds. *)
Lemma applies_first (normalizedPath : string) (f : Field) :
  applies normalizedPath = Some f
  ↔ includes normalizedPath (filename f) = true
    ∧ ∀ g, rank g < rank f → includes normalizedPath (filename g) = false.
Proof.
  split.
  - intros H. split; [by apply applies_includes|].
    unfold applies in H; simpl in H.
    repeat (let E := fresh "E" in
            destruct (includes normalizedPath _) eqn:E in H;
            [ injection H as <-; intros g Hg; destruct g; simpl in *; (lia || assumption)
            | ]).
    discriminate H.
  - intros [Hf Hg].
    assert (∀ g, rank g < rank f → includes normalizedPath (filename g) = false)
      as Hg' by exact Hg.
    unfold applies; simpl.
    destruct f; simpl in *;
      repeat match goal with
             | |- context [includes normalizedPath ?s] =>
                 first
                   [ rewrite Hf
                   | let H := fresh "H" in
                     assert (includes normalizedPath s = false) as H
                       by first [ apply (Hg' Errors); simpl; lia
                                | apply (Hg' Policies); simpl; lia
                                | apply (Hg' Version); simpl; lia
                                | apply (Hg' Shards); simpl; lia
                                | apply (Hg' Allocation); simpl; lia
                                | apply (Hg' Settings); simpl; lia
                                | apply (Hg' NodesStats); simpl; lia ];
                     rewrite H ]
             end; reflexivity.
Qed.

(** C7: the chain of [processZipFile] takes the branch of the first rule
    of the table whose filename the lower-cased path contains, and of no
    other: a non-directory entry that parses sets the variable of that
    rule to its value and leaves the seven others as they were, and sets
    none when its path contains no filename; so one turn of the loop
    changes at most one variable; and on the eight filenames themselves
    each passes the test of its own rule only. *)
Theorem C7_first_matching_rule_only :
  (∀ path f,
     applies (toLowerCase path) = Some f
     ↔ matches path f = true ∧ ∀ g, rank g < rank f → matches path g = false)
  ∧ (∀ path f g,
       applies (toLowerCase path) = Some f →
       applies (toLowerCase path) = Some g → f = g)
  ∧ (∀ normalizedPath json l f,
       includes normalizedPath (filename f) = true →
       (∀ g, rank g < rank f → includes normalizedPath (filename g) = false) →
       var f (route normalizedPath json l) = json
       ∧ (∀ g, g ≠ f → var g (route normalizedPath json l) = var g l)
       ∧ foundFiles (route normalizedPath json l) = foundFiles l ++ [label f])
  ∧ (∀ normalizedPath json l,
       (∀ f, includes normalizedPath (filename f) = false) →
       route normalizedPath json l = l)
  ∧ (∀ path zipEntry v l w f,
       dir zipEntry = false → parsed zipEntry = Some v →
       matches path f = true →
       (∀ g, rank g < rank f → matches path g = false) →
       ∃ lines l',
         primary l (path, zipEntry) w = (Return l', logged lines w)
         ∧ var f l' = v
         ∧ ∀ g, g ≠ f → var g l' = var g l)
  ∧ (∀ path zipEntry v l w,
       dir zipEntry = false → parsed zipEntry = Some v →
       (∀ f, matches path f = false) →
       ∃ lines, primary l (path, zipEntry) w = (Return l, logged lines w))
  ∧ (∀ l entry w,
       ∃ lines l',
         primary l entry w = (Return l', logged lines w)
         ∧ ∃ f, ∀ g, g ≠ f → var g l' = var g l)
  ∧ (∀ f g, matches (filename f) g = true ↔ f = g)
  ∧ (∀ f, applies (toLowerCase (filename f)) = Some f).
Proof.
  assert (∀ normalizedPath json l f,
            includes normalizedPath (filename f) = true →
            (∀ g, rank g < rank f → includes normalizedPath (filename g) = false) →
            route normalizedPath json l = found f json l) as Hfirst.
  { intros np json l f Hf Hg. rewrite route_applies.
    by rewrite (proj2 (applies_first np f) (conj Hf Hg)). }
  assert (∀ normalizedPath json l,
            (∀ f, includes normalizedPath (filename f) = false) →
            route normalizedPath json l = l) as Hnone.
  { intros np json l Hno. rewrite route_applies.
    destruct (applies np) as [f|] eqn:Hf; [|done].
    apply applies_includes in Hf. by rewrite Hno in Hf. }
  split_and!.
  - intros path f. apply applies_first.
  - intros path f g Hf Hg. congruence.
  - intros np json l f Hf Hg. rewrite (Hfirst np json l f Hf Hg). split_and!.
    + rewrite var_found. by destruct (decide (f = f)).
    + intros g Hne. rewrite var_found. by destruct (decide (f = g)).
    + done.
  - exact Hnone.
  - intros path zipEntry v l w f Hdir Hv Hf Hg.
    destruct (primary_run l (path, zipEntry) w) as [lines H].
    exists lines. eexists. split; [exact H|].
    unfold assigns; cbn [fst snd]. rewrite Hdir, Hv.
    rewrite (proj2 (applies_first (toLowerCase path) f) (conj Hf Hg)). split.
    + rewrite var_found. by destruct (decide (f = f)).
    + intros g Hne. rewrite var_found. by destruct (decide (f = g)).
  - intros path zipEntry v l w Hdir Hv Hno.
    destruct (primary_run l (path, zipEntry) w) as [lines H].
    exists lines. rewrite H. unfold assigns; cbn [fst snd]. rewrite Hdir, Hv.
    destruct (applies (toLowerCase path)) as [f|] eqn:Hf; [|done].
    apply applies_includes in Hf. unfold matches in Hno. by rewrite Hno in Hf.
  - intros l entry w. destruct (primary_run l entry w) as [lines H].
    exists lines. eexists. split; [exact H|].
    destruct (assigns entry) as [[f v]|].
    + exists f. intros g Hne. rewrite var_found. by destruct (decide (f = g)).
    + by exists Errors.
  - intros f g. split; [by destruct f, g | intros ->; by destruct g].
  - by intros [].
Qed.

(** *** Delivery of the bundle *)

(** C3: the callback and the write of settings.  When the archive does
    not open, [processZipFile] takes the outer [catch]: the error is the
    message of the thrown [Error], or the fixed text for another value,
    and the callback is not invoked, nothing is stored and no task is
    scheduled.  When the archive opens the callback is invoked exactly
    once if the write of settings does not throw; if it throws, the same
    [catch] is taken after the loop, and the callback is not invoked at
    all: so it is for an archive with a settings file in a browser whose
    storage is full.  A drop of a file that is not of type
    [application/zip] is refused without any call; the other events run
    [processZipFile]. *)
Theorem C3_callback_never_once_or_lost :
  (let files := [("settings.json", json_entry (JObject []))] in
   let w := refusing (ErrorInstance "QuotaExceededError") in
   zip_loadAsync (zip files) = Return files
   ∧ (processZipFile (zip files) w).1 = Return tt
   ∧ delivered (processZipFile (zip files) w).2 = []
   ∧ error (processZipFile (zip files) w).2 = Some "QuotaExceededError")
  ∧ (∀ file err w,
       zip_loadAsync file = Throw err →
       (processZipFile file w).1 = Return tt
       ∧ delivered (processZipFile file w).2 = delivered w
       ∧ error (processZipFile file w).2
         = Some match err with
                | ErrorInstance message => message
                | OtherValue => "Failed to process ZIP file"
                end
       ∧ localStorage (processZipFile file w).2 = localStorage w
       ∧ timers (processZipFile file w).2 = timers w
       ∧ isLoading (processZipFile file w).2 = false)
  ∧ (∀ file files w,
       zip_loadAsync file = Return files →
       settings_throws files w = None →
       (processZipFile file w).1 = Return tt
       ∧ isLoading (processZipFile file w).2 = false
       ∧ ∃ b, delivered (processZipFile file w).2 = delivered w ++ [b])
  ∧ (∀ file files err w,
       zip_loadAsync file = Return files →
       settings_throws files w = Some err →
       (processZipFile file w).1 = Return tt
       ∧ isLoading (processZipFile file w).2 = false
       ∧ delivered (processZipFile file w).2 = delivered w
       ∧ error (processZipFile file w).2
         = Some match err with
                | ErrorInstance message => message
                | OtherValue => "Failed to process ZIP file"
                end
       ∧ localStorage (processZipFile file w).2 = localStorage w)
  ∧ (∀ file w,
       type file ≠ "application/zip" →
       delivered (handleDrop (Some file) w).2 = delivered w
       ∧ error (handleDrop (Some file) w).2 = Some "Please upload a ZIP file"
       ∧ is_note "Please upload a ZIP file" = false)
  ∧ (∀ file w,
       type file = "application/zip" →
       handleDrop (Some file) w = processZipFile file w)
  ∧ (∀ file w, handleFileChange (Some file) w = processZipFile file w)
  ∧ is_note "Failed to process ZIP file" = false.
Proof.
  split_and!.
  - by vm_compute.
  - intros file err w Hopen. by rewrite (processZipFile_unopened file err w Hopen).
  - intros file files w Hopen Hok. split; [apply processZipFile_returns|].
    rewrite (processZipFile_delivers file files w Hopen Hok).
    destruct (processZipFile_world file files w Hopen) as (-> & _).
    unfold opened. rewrite Hok. split; [done|]. by eexists.
  - intros file files err w Hopen Hthrows. split; [apply processZipFile_returns|].
    by destruct (processZipFile_refused file files err w Hopen Hthrows)
      as (-> & -> & -> & _ & ->).
  - intros file w Htype. unfold handleDrop.
    destruct (String.eqb_spec (type file) "application/zip"); done.
  - intros file w Htype. unfold handleDrop. by rewrite Htype.
  - done.
  - done.
Qed.

(** *** The fields of the bundle *)

Lemma last_assigned (f : Field) (files : Files) (v : JSONValue) :
  last (assigned f files) = Some v →
  ∃ path zipEntry,
    (path, zipEntry) ∈ files ∧ dir zipEntry = false
    ∧ parsed zipEntry = Some v ∧ applies (toLowerCase path) = Some f.
Proof.
  intros H. apply last_Some_elem_of in H.
  apply list_elem_of_omap in H as ([path zipEntry] & Hin & H).
  exists path, zipEntry. split; [done|].
  unfold assigns in H; simpl in H.
  destruct (dir zipEntry); [done|].
  destruct (parsed zipEntry) as [v'|]; [|done].
  destruct (applies (toLowerCase path)) as [g|]; [|done].
  destruct (decide (g = f)) as [->|]; [|done].
  by injection H as ->.
Qed.

(** The arguments of the call after an archive that opened. *)
Lemma processZipFile_args (file : File) (files : Files) (w : World) :
  zip_loadAsync file = Return files →
  settings_throws files w = None →
  ∃ b, delivered (processZipFile file w).2 = delivered w ++ [b]
       ∧ ∀ f, arg f b = Val (if decide (f = Shards)
                              then or_else (held f files) (JArray [])
                              else held f files).
Proof.
  intros Hopen Hok. eexists. split; [by apply processZipFile_delivers|].
  intros f. by rewrite arg_bundle_of, var_scan_initial.
Qed.

(** C1, as amended: on an archive that opens, ingestion returns
    normally, and when the write of settings does not throw it delivers
    one bundle; each field other than shards holds the value of the last
    non-directory entry that decoded, parsed and was routed to it, and
    [null] when there is none; shards holds that value when it is truthy
    and the empty sequence otherwise.  So a field that carries data comes
    from such an entry, and a field whose filename no non-directory entry
    has is [null] (the empty sequence for shards).  When the write
    throws, no bundle is delivered. *)
Theorem C1_bundle_holds_last_parsed_entries
  (file : File) (files : Files) (w : World) :
  zip_loadAsync file = Return files →
  (processZipFile file w).1 = Return tt
  ∧ (settings_throws files w = None →
     ∃ b,
       delivered (processZipFile file w).2 = delivered w ++ [b]
       ∧ (∀ f, f ≠ Shards → arg f b = Val (held f files))
       ∧ shards b = Val (or_else (held Shards files) (JArray []))
       ∧ (∀ f, f ≠ Shards → ¬ absent (arg f b) →
            ∃ path zipEntry v,
              (path, zipEntry) ∈ files ∧ dir zipEntry = false
              ∧ parsed zipEntry = Some v
              ∧ applies (toLowerCase path) = Some f
              ∧ arg f b = Val v)
       ∧ (∀ f, has_file f files = false →
            arg f b = Val (if decide (f = Shards) then JArray [] else JNull)))
  ∧ (∀ err, settings_throws files w = Some err →
            delivered (processZipFile file w).2 = delivered w).
Proof.
  intros Hopen. split; [apply processZipFile_returns|]. split.
  - intros Hok.
    destruct (processZipFile_args file files w Hopen Hok) as (b & Hb & Hargs).
    exists b. split_and!; [done|..].
    + intros f Hf. rewrite Hargs. by destruct (decide (f = Shards)).
    + apply (Hargs Shards).
    + intros f Hf Hpresent. rewrite Hargs in *.
      destruct (decide (f = Shards)); [done|].
      unfold held in *.
      destruct (last (assigned f files)) as [v|] eqn:Hlast; simpl in *.
      * destruct (last_assigned f files v Hlast)
          as (path & zipEntry & Hin & Hdir & Hv & Hrule).
        by exists path, zipEntry, v.
      * destruct Hpresent. by right.
    + intros f Hnone. rewrite Hargs. unfold held.
      rewrite (assigned_has_file f files Hnone). simpl.
      by destruct (decide (f = Shards)).
  - intros err Hthrows.
    by destruct (processZipFile_refused file files err w Hopen Hthrows) as (-> & _).
Qed.

(** C1 fails as stated: both [ilm_policies.json] and [version.json] are
    names of non-directory entries of this archive, the first holding
    text that is not JSON and the second the JSON text [null]; the
    archive opens, and the bundle has neither field. *)
Lemma C1_counterexample_named_but_absent :
  let files :=
    [("ilm_policies.json", text_entry "Unexpected token o in JSON at position 1");
     ("version.json", json_entry JNull)] in
  (processZipFile (zip files) fresh).1 = Return tt
  ∧ has_file Policies files = true
  ∧ has_file Version files = true
  ∧ ∃ b, delivered (processZipFile (zip files) fresh).2 = [b]
         ∧ absent (policies b) ∧ absent (version b).
Proof.
  split_and!; [reflexivity..|].
  eexists. split_and!; [reflexivity | by right | by right].
Qed.

(** The theorem at an archive whose only entry is [Data/ILM_Policies.JSON]. *)
Lemma C1_witness :
  let files := [("Data/ILM_Policies.JSON", json_entry (JObject []))] in
  (zip_loadAsync (zip files) = Return files
   ∧ settings_throws files fresh = None)
  ∧ (processZipFile (zip files) fresh).1 = Return tt
  ∧ ∃ b, delivered (processZipFile (zip files) fresh).2 = delivered fresh ++ [b]
         ∧ (∀ f, f ≠ Shards → arg f b = Val (held f files))
         ∧ shards b = Val (or_else (held Shards files) (JArray [])).
Proof.
  split; [by split|].
  destruct (C1_bundle_holds_last_parsed_entries
              (zip [("Data/ILM_Policies.JSON", json_entry (JObject []))])
              [("Data/ILM_Policies.JSON", json_entry (JObject []))]
              fresh eq_refl) as (Hreturns & Hdelivers & _).
  split; [exact Hreturns|].
  destruct (Hdelivers eq_refl) as (b & Hb & Hfields & Hshards & _).
  by exists b.
Defined.

(** *** Entries that fail to decode or parse *)

Lemma assigns_unparsed (path : string) (zipEntry : ZipObject) :
  parsed zipEntry = None → assigns (path, zipEntry) = None.
Proof. intros H. unfold assigns; simpl. rewrite H. by destruct (dir zipEntry). Qed.

Lemma scan_skip (pre post : Files) (entry : string * ZipObject) (l : Locals) :
  assigns entry = None →
  scan (pre ++ entry :: post) l = scan (pre ++ post) l.
Proof. intros H. rewrite !scan_app. unfold scan at 1; simpl. by rewrite H. Qed.

Lemma assigned_skip (f : Field) (pre post : Files) (entry : string * ZipObject) :
  assigns entry = None →
  assigned f (pre ++ entry :: post) = assigned f (pre ++ post).
Proof. intros H. rewrite !assigned_app. unfold assigned at 2; simpl. by rewrite H. Qed.

(** C2, as amended: a non-directory entry whose content fails to decode
    or to parse assigns nothing and does not stop the loop, which goes on
    with the entries after it from the variables the entries before it
    left; the call returns normally, and the bundles delivered, the error
    and the store are those of the archive without the entry.  The field
    of the rule that applies to the entry is absent (the empty sequence
    for shards) in the bundle delivered when no other entry is assigned
    to it. *)
Theorem C2_failed_entry_is_skipped
  (file file' : File) (pre post : Files) (path : string) (zipEntry : ZipObject)
  (w : World) :
  dir zipEntry = false →
  parsed zipEntry = None →
  zip_loadAsync file = Return (pre ++ (path, zipEntry) :: post) →
  zip_loadAsync file' = Return (pre ++ post) →
  (processZipFile file w).1 = Return tt
  ∧ (∀ l w0, ∃ lines,
       for_of (pre ++ (path, zipEntry) :: post) primary l w0
       = (Return (scan post (scan pre l)), logged lines w0))
  ∧ delivered (processZipFile file w).2 = delivered (processZipFile file' w).2
  ∧ error (processZipFile file w).2 = error (processZipFile file' w).2
  ∧ localStorage (processZipFile file w).2 = localStorage (processZipFile file' w).2
  ∧ (∀ f b, applies (toLowerCase path) = Some f →
            assigned f (pre ++ post) = [] →
            delivered (processZipFile file w).2 = delivered w ++ [b] →
            arg f b = Val (if decide (f = Shards) then JArray [] else JNull))
  ∧ (settings_throws (pre ++ post) w = None →
     ∃ b, delivered (processZipFile file w).2 = delivered w ++ [b]).
Proof.
  intros Hdir Hparsed Hopen Hopen'.
  pose proof (assigns_unparsed path zipEntry Hparsed) as Hskip.
  assert (∀ f, held f (pre ++ (path, zipEntry) :: post) = held f (pre ++ post))
    as Hheld by (intros f; unfold held; by rewrite (assigned_skip f pre post _ Hskip)).
  assert (settings_throws (pre ++ (path, zipEntry) :: post) w
          = settings_throws (pre ++ post) w) as Hthrows
    by (unfold settings_throws; by rewrite Hheld).
  destruct (processZipFile_world file _ w Hopen) as (_ & He & Hs & Hd & _).
  destruct (processZipFile_world file' _ w Hopen') as (_ & He' & Hs' & Hd' & _).
  assert (delivered (opened (pre ++ (path, zipEntry) :: post) w)
          = delivered (opened (pre ++ post) w)
          ∧ error (opened (pre ++ (path, zipEntry) :: post) w)
            = error (opened (pre ++ post) w)
          ∧ localStorage (opened (pre ++ (path, zipEntry) :: post) w)
            = localStorage (opened (pre ++ post) w)) as (Hd0 & He0 & Hs0).
  { unfold opened. rewrite Hthrows, (scan_skip pre post _ initial Hskip).
    by destruct (settings_throws (pre ++ post) w). }
  split_and!.
  - apply processZipFile_returns.
  - intros l w0.
    destruct (for_of_primary (pre ++ (path, zipEntry) :: post) l w0) as [lines H].
    exists lines. by rewrite H, (scan_skip pre post _ l Hskip), scan_app.
  - by rewrite Hd, Hd', Hd0.
  - by rewrite He, He', He0.
  - by rewrite Hs, Hs', Hs0.
  - intros f b Hrule Hnone Hb.
    destruct (settings_throws (pre ++ (path, zipEntry) :: post) w) as [err|] eqn:Ht.
    + destruct (processZipFile_refused file _ err w Hopen Ht) as (Hsame & _).
      rewrite Hsame in Hb. apply (f_equal length) in Hb.
      rewrite length_app in Hb. simpl in Hb. lia.
    + destruct (processZipFile_args file _ w Hopen Ht) as (b' & Hb' & Hargs).
      rewrite Hb' in Hb. apply app_inj_tail in Hb as [_ ->].
      rewrite Hargs, Hheld. unfold held. rewrite Hnone. simpl.
      by destruct (decide (f = Shards)).
  - intros Hok. rewrite <- Hthrows in Hok.
    destruct (processZipFile_args file _ w Hopen Hok) as (b & Hb & _). by exists b.
Qed.

(** C2 fails as stated: the entry [b/ilm_policies.json] does not parse
    and the policies rule applies to its path, yet the policies field is
    not absent, because [a/ilm_policies.json] populates it. *)
Lemma C2_counterexample_field_populated_by_other_entry :
  let good := ("a/ilm_policies.json", json_entry (JObject [])) in
  let bad := ("b/ilm_policies.json", text_entry "Unexpected end of JSON input") in
  dir bad.2 = false
  ∧ parsed bad.2 = None
  ∧ applies (toLowerCase bad.1) = Some Policies
  ∧ ∃ b, delivered (processZipFile (zip [good; bad]) fresh).2 = [b]
         ∧ policies b = Val (JObject [])
         ∧ ¬ absent (policies b).
Proof.
  split_and!; [reflexivity..|].
  eexists. split_and!; [reflexivity..|].
  by intros [|].
Qed.

(** The theorem at an archive whose policies entry does not parse, between
    a shards and a version entry that do. *)
Lemma C2_witness :
  let pre := [("shards.json", json_entry (JArray []))] in
  let post := [("version.json", json_entry (JObject []))] in
  let bad := text_entry "Unexpected end of JSON input" in
  (dir bad = false ∧ parsed bad = None)
  ∧ delivered (processZipFile (zip (pre ++ ("ilm_policies.json", bad) :: post)) fresh).2
    = delivered (processZipFile (zip (pre ++ post)) fresh).2.
Proof.
  split; [by split|].
  exact (proj1 (proj2 (proj2
    (C2_failed_entry_is_skipped
       (zip ([("shards.json", json_entry (JArray []))]
             ++ ("ilm_policies.json", text_entry "Unexpected end of JSON input")
                :: [("version.json", json_entry (JObject []))]))
       (zip ([("shards.json", json_entry (JArray []))]
             ++ [("version.json", json_entry (JObject []))]))
       [("shards.json", json_entry (JArray []))]
       [("version.json", json_entry (JObject []))]
       "ilm_policies.json"
       (text_entry "Unexpected end of JSON input")
       fresh eq_refl eq_refl eq_refl eq_refl)))).
Defined.

(** *** The advisory *)

Lemma held_no_file (f : Field) (files : Files) :
  has_file f files = false → held f files = JNull.
Proof. intros H. unfold held. by rewrite (assigned_has_file f files H). Qed.

(** The advisory after an archive that opens, when the write of settings
    does not throw: none when the errors and the policies variables both
    hold a truthy value; otherwise a note (a message starting with
    [Note:]) that names exactly the filenames of those two whose variable
    is falsy, errors first, which covers every file that is missing; in
    both cases the bundle of what was found is delivered. *)
Lemma advisory_names_falsy_ilm_fields
  (file : File) (files : Files) (w : World) :
  zip_loadAsync file = Return files →
  settings_throws files w = None →
  let missing :=
    (if truthy (held Errors files) then [] else [filename Errors])
    ++ (if truthy (held Policies files) then [] else [filename Policies]) in
  (processZipFile file w).1 = Return tt
  ∧ error (processZipFile file w).2
    = (if truthy (held Errors files) && truthy (held Policies files) then None
       else Some (advisory missing))
  ∧ is_note (advisory missing) = true
  ∧ (filename Errors ∈ missing ↔ truthy (held Errors files) = false)
  ∧ (filename Policies ∈ missing ↔ truthy (held Policies files) = false)
  ∧ (∀ name, name ∈ missing → name = filename Errors ∨ name = filename Policies)
  ∧ (has_file Errors files = false → filename Errors ∈ missing)
  ∧ (has_file Policies files = false → filename Policies ∈ missing)
  ∧ ∃ b, delivered (processZipFile file w).2 = delivered w ++ [b]
         ∧ ∀ f, arg f b = Val (if decide (f = Shards)
                                then or_else (held f files) (JArray [])
                                else held f files).
Proof.
  intros Hopen Hok missing.
  assert (filename Errors ∈ missing ↔ truthy (held Errors files) = false) as HE.
  { unfold missing.
    destruct (truthy (held Errors files)), (truthy (held Policies files));
      simpl; split; try done; intros H; try by apply list_elem_of_here.
    - by apply elem_of_nil in H.
    - apply list_elem_of_singleton in H. discriminate H. }
  assert (filename Policies ∈ missing ↔ truthy (held Policies files) = false) as HP.
  { unfold missing.
    destruct (truthy (held Errors files)), (truthy (held Policies files));
      simpl; split; try done; intros H; try by apply list_elem_of_here.
    - by apply elem_of_nil in H.
    - apply list_elem_of_singleton in H. discriminate H.
    - by apply list_elem_of_further, list_elem_of_here. }
  split_and!; [apply processZipFile_returns|..|by apply processZipFile_args];
    try done.
  - destruct (processZipFile_world file files w Hopen) as (_ & -> & _).
    unfold opened, missingFiles. rewrite Hok. simpl.
    change (errorsJson (scan files initial)) with (var Errors (scan files initial)).
    change (policiesJson (scan files initial)) with (var Policies (scan files initial)).
    by rewrite !var_scan_initial.
  - unfold missing.
    destruct (truthy (held Errors files)), (truthy (held Policies files));
      simpl; intros name H;
      apply list_elem_of_In in H; simpl in H;
      repeat (destruct H as [<-|H]; [first [by left | by right]|]);
      destruct H.
  - intros H. apply HE. by rewrite (held_no_file _ _ H).
  - intros H. apply HP. by rewrite (held_no_file _ _ H).
Qed.

(** C5: the code reports a file that it found as missing.  Both files of
    this archive are found: each is the name of a non-directory entry
    that parses and is assigned to its variable, and the bundle carries
    both values.  The storage takes every write.  Yet the note that the
    errors file is missing is raised, because its content is the JSON
    text [false] and line 88 tests the value, not the file. *)
Theorem C5_found_file_reported_missing :
  let files :=
    [("ilm_explain_only_errors.json", json_entry (JBool false));
     ("ilm_policies.json", json_entry (JObject []))] in
  has_file Errors files = true
  ∧ has_file Policies files = true
  ∧ assigned Errors files = [JBool false]
  ∧ assigned Policies files = [JObject []]
  ∧ labels files = ["ILM Errors"; "ILM Policies"]
  ∧ (∃ b, delivered (processZipFile (zip files) fresh).2 = [b]
          ∧ errors b = Val (JBool false) ∧ policies b = Val (JObject []))
  ∧ error (processZipFile (zip files) fresh).2
    = Some "Note: Some ILM files are missing (ilm_explain_only_errors.json), but you can still view available data.".
Proof.
  split_and!; [reflexivity..| |reflexivity].
  eexists. split_and!; reflexivity.
Qed.

(** *** The store *)

(** The deferred pass returns normally and writes to no key but
    [index_templates] and [aliases]. *)
Lemma auxiliary_storage (entry : string * ZipObject) (w : World) :
  ∃ w', auxiliary tt entry w = (Return tt, w')
        ∧ delivered w' = delivered w
        ∧ timers w' = timers w
        ∧ ∀ key, key ≠ "index_templates" → key ≠ "aliases" →
                 localStorage w' !! key = localStorage w !! key.
Proof.
  destruct entry as [path zipEntry]. unfold auxiliary.
  destruct (dir zipEntry); [by exists w|].
  run. simpl.
  destruct (includes (toLowerCase path) "index_templates.json");
    destruct (includes (toLowerCase path) "alias.json");
    destruct (includes (toLowerCase path) "aliases.json"); simpl;
    try (by exists w);
    (destruct (async_string zipEntry) as [[message|v]|e]; simpl;
     try match goal with
         | |- context [setItem_throws w ?m ?k ?t] =>
             destruct (setItem_throws w m k t)
         end; simpl;
     eexists; (split; [reflexivity|]); simpl; (split; [done|]); (split; [done|]);
     intros key H1 H2; by rewrite ?lookup_insert_ne).
Qed.

Lemma for_of_auxiliary_storage (files : Files) (w : World) :
  ∃ w', for_of files auxiliary tt w = (Return tt, w')
        ∧ delivered w' = delivered w
        ∧ timers w' = timers w
        ∧ ∀ key, key ≠ "index_templates" → key ≠ "aliases" →
                 localStorage w' !! key = localStorage w !! key.
Proof.
  revert w. induction files as [|entry files IH]; intros w; simpl.
  - by exists w.
  - destruct (auxiliary_storage entry w) as (w1 & H1 & Hd1 & Ht1 & Hs1).
    unfold mbind, M_bind. rewrite H1.
    destruct (IH w1) as (w2 & H2 & Hd2 & Ht2 & Hs2).
    exists w2. split_and!; [done| congruence | congruence |].
    intros key Hk1 Hk2. by rewrite Hs2, Hs1.
Qed.

Lemma run_timers_storage (w : World) :
  ∃ w', run_timers w = (Return tt, w')
        ∧ delivered w' = delivered w
        ∧ ∀ key, key ≠ "index_templates" → key ≠ "aliases" →
                 localStorage w' !! key = localStorage w !! key.
Proof.
  unfold run_timers.
  set (w0 := {| isLoading := isLoading w; error := error w;
                localStorage := localStorage w; console := console w;
                delivered := delivered w; timers := [];
                setItem_throws := setItem_throws w |}).
  change (delivered w) with (delivered w0).
  change (localStorage w) with (localStorage w0).
  generalize (timers w) as tasks. clearbody w0. intros tasks. revert w0.
  induction tasks as [|[files] tasks IH]; intros w0; simpl.
  - by exists w0.
  - destruct (for_of_auxiliary_storage files w0) as (w1 & H1 & Hd1 & _ & Hs1).
    unfold mbind, M_bind. rewrite H1.
    destruct (IH w1) as (w2 & H2 & Hd2 & Hs2).
    exists w2. split_and!; [done | congruence |].
    intros key Hk1 Hk2. by rewrite Hs2, Hs1.
Qed.

(** C8, as amended: when the last entry that parsed and was routed to
    the settings rule holds the value [v], then: if [v] is truthy and the
    write does not throw, the bundle carries [v], the call stores its
    serialised text under the key [settings], and the deferred pass
    leaves it there; if [v] is falsy, the bundle carries [v] and the call
    stores nothing.  If the write throws, nothing is stored and no bundle
    is delivered. *)
Theorem C8_truthy_settings_are_stored
  (file : File) (files : Files) (v : JSONValue) (w : World) :
  zip_loadAsync file = Return files →
  last (assigned Settings files) = Some v →
  (truthy v = true →
   setItem_throws w (localStorage w) "settings" (JSON_stringify v) = None →
     (∃ b, delivered (processZipFile file w).2 = delivered w ++ [b]
           ∧ settings b = Val v)
     ∧ localStorage (processZipFile file w).2
       = <["settings" := JSON_stringify v]> (localStorage w)
     ∧ localStorage (processZipFile file w).2 !! "settings"
       = Some (JSON_stringify v)
     ∧ localStorage (run_timers (processZipFile file w).2).2 !! "settings"
       = Some (JSON_stringify v))
  ∧ (truthy v = false →
       (∃ b, delivered (processZipFile file w).2 = delivered w ++ [b]
             ∧ settings b = Val v)
       ∧ localStorage (processZipFile file w).2 = localStorage w)
  ∧ (∀ err,
       truthy v = true →
       setItem_throws w (localStorage w) "settings" (JSON_stringify v) = Some err →
       delivered (processZipFile file w).2 = delivered w
       ∧ localStorage (processZipFile file w).2 = localStorage w).
Proof.
  intros Hopen Hlast.
  assert (held Settings files = v) as Hheld by (unfold held; by rewrite Hlast).
  assert (settingsJson (scan files initial) = v) as Hvar
    by (rewrite <- Hheld; apply (var_scan_initial Settings)).
  destruct (processZipFile_world file files w Hopen) as (_ & _ & Hstore & _).
  assert (settings_throws files w = None →
          ∃ b, delivered (processZipFile file w).2 = delivered w ++ [b]
               ∧ settings b = Val v) as Hbundle.
  { intros Hok.
    destruct (processZipFile_args file files w Hopen Hok) as (b & Hb & Hargs).
    exists b. split; [done|].
    change (settings b) with (arg Settings b). by rewrite Hargs, Hheld. }
  split_and!.
  - intros Htruthy Hok.
    assert (settings_throws files w = None) as Hok'
      by (unfold settings_throws; by rewrite Hheld, Htruthy).
    assert (localStorage (processZipFile file w).2
            = <["settings" := JSON_stringify v]> (localStorage w)) as Hs.
    { rewrite Hstore. unfold opened. rewrite Hok'. simpl. by rewrite Hvar, Htruthy. }
    split_and!; [by apply Hbundle | done | by rewrite Hs, lookup_insert_eq |].
    destruct (run_timers_storage (processZipFile file w).2) as (w' & -> & _ & Hframe).
    simpl. by rewrite Hframe, Hs, lookup_insert_eq.
  - intros Hfalsy.
    assert (settings_throws files w = None) as Hok'
      by (unfold settings_throws; by rewrite Hheld, Hfalsy).
    split; [by apply Hbundle|].
    rewrite Hstore. unfold opened. rewrite Hok'. simpl. by rewrite Hvar, Hfalsy.
  - intros err Htruthy Hthrows.
    assert (settings_throws files w = Some err) as Hthrows'
      by (unfold settings_throws; by rewrite Hheld, Htruthy).
    by destruct (processZipFile_refused file files err w Hopen Hthrows')
      as (-> & _ & -> & _).
Qed.

(** C8 fails as stated: [settings.json] is found (the entry is not a
    directory, parses, and is assigned to the settings variable, and the
    bundle carries its value), yet nothing is stored under [settings],
    neither by the call nor by the deferred pass, because its content is
    the JSON text [false]. *)
Lemma C8_counterexample_found_but_not_stored :
  let files := [("settings.json", json_entry (JBool false))] in
  assigned Settings files = [JBool false]
  ∧ (∃ b, delivered (processZipFile (zip files) fresh).2 = [b]
          ∧ settings b = Val (JBool false))
  ∧ localStorage (processZipFile (zip files) fresh).2 !! "settings" = None
  ∧ localStorage (run_timers (processZipFile (zip files) fresh).2).2 !! "settings"
    = None.
Proof.
  split_and!; [reflexivity | | reflexivity | reflexivity].
  eexists. split; reflexivity.
Qed.

(** The theorem at an archive whose settings entry holds an object, in a
    browser whose storage takes the write. *)
Lemma C8_witness :
  let files := [("cluster/settings.json", json_entry (JObject []))] in
  (zip_loadAsync (zip files) = Return files
   ∧ last (assigned Settings files) = Some (JObject [])
   ∧ truthy (JObject []) = true
   ∧ setItem_throws fresh (localStorage fresh) "settings"
       (JSON_stringify (JObject [])) = None)
  ∧ localStorage (processZipFile (zip files) fresh).2 !! "settings"
    = Some (JSON_stringify (JObject [])).
Proof.
  split; [by split_and!|].
  exact (proj1 (proj2 (proj2
    (proj1
       (C8_truthy_settings_are_stored
          (zip [("cluster/settings.json", json_entry (JObject []))])
          [("cluster/settings.json", json_entry (JObject []))]
          (JObject []) fresh eq_refl eq_refl)
       eq_refl eq_refl)))).
Defined.

(** *** Several entries for one rule *)

(** C10, as amended: when a non-directory entry parses to [v] and is
    routed to field [f] (the rule of [f] is the first its path matches),
    and no entry enumerated after it is assigned to [f], the bundle
    delivered holds [v] in that field whatever the entries before it
    assigned, except that shards holds the empty sequence when [v] is
    falsy; and the bundle is delivered when the write of settings does
    not throw.  So swapping two entries of the same rule changes the
    bundle. *)
Theorem C10_last_assigned_entry_wins
  (file : File) (pre post : Files) (path : string) (zipEntry : ZipObject)
  (f : Field) (v : JSONValue) (w : World) :
  zip_loadAsync file = Return (pre ++ (path, zipEntry) :: post) →
  dir zipEntry = false →
  parsed zipEntry = Some v →
  applies (toLowerCase path) = Some f →
  assigned f post = [] →
  (∀ b, delivered (processZipFile file w).2 = delivered w ++ [b] →
        arg f b = Val (if decide (f = Shards) then or_else v (JArray []) else v))
  ∧ (settings_throws (pre ++ (path, zipEntry) :: post) w = None →
     ∃ b, delivered (processZipFile file w).2 = delivered w ++ [b]
          ∧ arg f b = Val (if decide (f = Shards) then or_else v (JArray []) else v))
  ∧ delivered (processZipFile
                 (zip [("a/version.json", json_entry (JString "8.1"));
                       ("b/version.json", json_entry (JString "7.17"))]) fresh).2
    ≠ delivered (processZipFile
                   (zip [("b/version.json", json_entry (JString "7.17"));
                         ("a/version.json", json_entry (JString "8.1"))]) fresh).2.
Proof.
  intros Hopen Hdir Hv Hrule Hlater.
  assert (held f (pre ++ (path, zipEntry) :: post) = v) as Hheld.
  { unfold held. rewrite assigned_app, assigned_cons, Hlater.
    unfold assigns; simpl. rewrite Hdir, Hv, Hrule.
    destruct (decide (f = f)); [|done]. by rewrite last_snoc. }
  assert (settings_throws (pre ++ (path, zipEntry) :: post) w = None →
          ∃ b, delivered (processZipFile file w).2 = delivered w ++ [b]
               ∧ arg f b = Val (if decide (f = Shards)
                                then or_else v (JArray []) else v)) as Hgood.
  { intros Hok.
    destruct (processZipFile_args file _ w Hopen Hok) as (b & Hb & Hargs).
    exists b. split; [done|]. by rewrite Hargs, Hheld. }
  split_and!; [| exact Hgood | by vm_compute].
  intros b Hb.
  destruct (settings_throws (pre ++ (path, zipEntry) :: post) w) as [err|] eqn:Ht.
  - destruct (processZipFile_refused file _ err w Hopen Ht) as (Hsame & _).
    rewrite Hsame in Hb. apply (f_equal length) in Hb.
    rewrite length_app in Hb. simpl in Hb. lia.
  - destruct (Hgood eq_refl) as (b' & Hb' & Harg).
    rewrite Hb' in Hb. by apply app_inj_tail in Hb as [_ <-].
Qed.

(** C10 fails as stated: two non-directory entries match the shards rule
    and parse, the one enumerated last to [false]; the shards field of
    the bundle is the empty sequence, not that content. *)
Lemma C10_counterexample_falsy_shards_replaced :
  let files :=
    [("a/shards.json", json_entry (JArray [JObject []]));
     ("b/shards.json", json_entry (JBool false))] in
  assigned Shards files = [JArray [JObject []]; JBool false]
  ∧ ∃ b, delivered (processZipFile (zip files) fresh).2 = [b]
         ∧ shards b = Val (JArray [])
         ∧ shards b ≠ Val (JBool false).
Proof.
  split; [reflexivity|]. eexists. split_and!; [reflexivity..|]. discriminate.
Qed.

(** The theorem at an archive with two version entries. *)
Lemma C10_witness :
  let first := ("a/version.json", json_entry (JString "8.1")) in
  let second := ("b/version.json", json_entry (JString "7.17")) in
  (zip_loadAsync (zip ([first] ++ second :: [])) = Return ([first] ++ second :: [])
   ∧ dir second.2 = false
   ∧ parsed second.2 = Some (JString "7.17")
   ∧ applies (toLowerCase second.1) = Some Version
   ∧ assigned Version [] = []
   ∧ settings_throws ([first] ++ second :: []) fresh = None)
  ∧ ∃ b, delivered (processZipFile (zip ([first] ++ second :: [])) fresh).2
         = delivered fresh ++ [b]
         ∧ arg Version b = Val (JString "7.17").
Proof.
  split; [by split_and!|].
  exact (proj1 (proj2
    (C10_last_assigned_entry_wins
       (zip ([("a/version.json", json_entry (JString "8.1"))]
             ++ ("b/version.json", json_entry (JString "7.17")) :: []))
       [("a/version.json", json_entry (JString "8.1"))] []
       "b/version.json" (json_entry (JString "7.17")) Version (JString "7.17")
       fresh eq_refl eq_refl eq_refl eq_refl eq_refl)) eq_refl).
Defined.

(** *** The demo data *)


(** Resources that all settle give their values, in order. *)
Lemma resources_settle (fetch : Origin) (urls : list string) (vs : list JSONValue) :
  Forall2 (λ url v, resource fetch url = Return v) urls vs →
  ∃ responses,
    Promise_all (fetch <$> urls) = Return responses
    ∧ Promise_all (Response_json <$> responses) = Return vs.
Proof.
  induction 1 as [|url v urls vs Hv _ (responses & Hr & Hj)]; [by exists []|].
  unfold resource in Hv. rewrite fmap_cons. cbn [Promise_all].
  destruct (fetch url) as [res|]; [|done].
  exists (res :: responses). rewrite Hr. split; [done|].
  rewrite fmap_cons. cbn [Promise_all]. by rewrite Hv, Hj.
Qed.




End FileUploadFacts.

(** ** Master highlighting *)

Module NodesViewFacts.

Import NodesView.

(** C9: with a master record, a card is marked as master exactly when the
    node's identifier equals the record's [id] or its name equals the
    record's [node]; every node gets one card, in order; without a master
    record no card is marked. *)
Theorem C9_master_marking :
  (∀ m nodeId nodeName,
     isMasterNode (Some m) nodeId nodeName = true
     ↔ id m = nodeId ∨ node m = nodeName)
  ∧ (∀ nodeId nodeName, isMasterNode None nodeId nodeName = false)
  ∧ (∀ masterNode nodes, (cards masterNode nodes).*1 = nodes)
  ∧ (∀ m nodes nodeId n,
       (nodeId, n, true) ∈ cards (Some m) nodes
       ↔ (nodeId, n) ∈ nodes ∧ (id m = nodeId ∨ node m = name n))
  ∧ (∀ nodes nodeId n, (nodeId, n, true) ∉ cards None nodes).
Proof.
  assert (∀ m nodeId nodeName,
            isMasterNode (Some m) nodeId nodeName = true
            ↔ id m = nodeId ∨ node m = nodeName) as Hspec.
  { intros m nodeId nodeName. unfold isMasterNode.
    rewrite orb_true_iff. by rewrite !String.eqb_eq. }
  split_and!.
  - exact Hspec.
  - done.
  - intros masterNode nodes. unfold cards.
    apply list_eq; intros i. rewrite !list_lookup_fmap.
    by destruct (nodes !! i) as [[nodeId n]|].
  - intros m nodes nodeId n. unfold cards. rewrite list_elem_of_fmap. split.
    + intros ([nodeId' n'] & Heq & Hin). injection Heq as -> -> Hm.
      split; [done|]. by apply Hspec.
    + intros [Hin Hm]. exists (nodeId, n). split; [|done].
      apply Hspec in Hm. by rewrite Hm.
  - intros nodes nodeId n. unfold cards. rewrite list_elem_of_fmap.
    intros ([nodeId' n'] & Heq & _). discriminate Heq.
Qed.

End NodesViewFacts.

(** * Further properties of the upload component *)

Module FileUploadExtra.

Import FileUpload JSFacts FileUploadFacts.

(** ** The deferred pass *)

Lemma deferred_id (w : World) : deferred (localStorage w) [] w = w.
Proof. destruct w. unfold deferred; simpl. by rewrite app_nil_r. Qed.

Lemma deferred_deferred (m1 m2 : gmap string DOMString)
  (l1 l2 : list ConsoleLine) (w : World) :
  deferred m2 l2 (deferred m1 l1 w) = deferred m2 (l1 ++ l2) w.
Proof. unfold deferred; simpl. by rewrite app_assoc. Qed.

(** One turn of the deferred loop returns normally, makes the write that
    [stores] says unless the browser refuses it, and besides writes to
    the console only. *)
Lemma auxiliary_exact (entry : string * ZipObject) (w : World) :
  ∃ lines,
    auxiliary tt entry w =
    (Return tt,
     deferred match stores entry with
              | Some (key, v) =>
                  match setItem_throws w (localStorage w) key (JSON_stringify v) with
                  | None => <[key := JSON_stringify v]> (localStorage w)
                  | Some _ => localStorage w
                  end
              | None => localStorage w
              end lines w).
Proof.
  destruct entry as [path zipEntry]. unfold auxiliary, stores, parsed; simpl.
  destruct (dir zipEntry); [exists []; by rewrite deferred_id|].
  run. simpl.
  destruct (includes (toLowerCase path) "index_templates.json");
    destruct (includes (toLowerCase path) "alias.json");
    destruct (includes (toLowerCase path) "aliases.json"); simpl;
    destruct (async_string zipEntry) as [[message|v]|e]; simpl;
    try match goal with
        | |- context [setItem_throws w ?m ?k ?t] =>
            destruct (setItem_throws w m k t)
        end; simpl;
    first [ exists []; by rewrite deferred_id
          | exists []; unfold deferred; simpl; by rewrite app_nil_r
          | by eexists [_] ].
Qed.

Lemma for_of_auxiliary_exact (files : Files) (w : World) :
  ∃ lines,
    for_of files auxiliary tt w =
    (Return tt,
     deferred (aux_store_with (setItem_throws w) files (localStorage w)) lines w).
Proof.
  revert w. induction files as [|entry files IH]; intros w; simpl.
  - exists []. by rewrite deferred_id.
  - destruct (auxiliary_exact entry w) as [l1 H1].
    unfold mbind, M_bind. rewrite H1.
    match goal with |- context [for_of files auxiliary tt ?w1] =>
      destruct (IH w1) as [l2 ->] end.
    exists (l1 ++ l2). by rewrite deferred_deferred.
Qed.

Lemma run_timers_exact (w : World) :
  ∃ lines,
    run_timers w =
    (Return tt,
     {| isLoading := isLoading w; error := error w;
        localStorage := timers_store_with (setItem_throws w) (timers w) (localStorage w);
        console := console w ++ lines; delivered := delivered w; timers := [];
        setItem_throws := setItem_throws w |}).
Proof.
  unfold run_timers.
  set (w0 := {| isLoading := isLoading w; error := error w;
                localStorage := localStorage w; console := console w;
                delivered := delivered w; timers := [];
                setItem_throws := setItem_throws w |}).
  assert (∀ tasks w1, timers w1 = [] →
            ∃ lines, for_of tasks (λ _ t, run t) tt w1
                     = (Return tt,
                        deferred (timers_store_with (setItem_throws w1) tasks
                                    (localStorage w1)) lines w1))
    as Hloop.
  { induction tasks as [|[files] tasks IH]; intros w1 Hw1; simpl.
    - exists []. by rewrite deferred_id.
    - destruct (for_of_auxiliary_exact files w1) as [l1 H1].
      unfold mbind, M_bind. rewrite H1.
      destruct (IH (deferred (aux_store_with (setItem_throws w1) files
                                (localStorage w1)) l1 w1) Hw1)
        as [l2 ->].
      exists (l1 ++ l2). by rewrite deferred_deferred. }
  destruct (Hloop (timers w) w0 eq_refl) as [lines ->]. by exists lines.
Qed.

(** A storage that takes every write: the closed form without refusals. *)
Lemma aux_store_unlimited
  (throws : gmap string DOMString → string → DOMString → option thrown)
  (files : Files) (m : gmap string DOMString) :
  (∀ m key value, throws m key value = None) →
  aux_store_with throws files m = aux_store files m.
Proof.
  intros Hall. revert m. induction files as [|entry files IH]; intros m; [done|].
  simpl. destruct (stores entry) as [[key v]|]; [rewrite Hall|]; apply IH.
Qed.

Lemma timers_store_unlimited
  (throws : gmap string DOMString → string → DOMString → option thrown)
  (tasks : list Task) (m : gmap string DOMString) :
  (∀ m key value, throws m key value = None) →
  timers_store_with throws tasks m = timers_store tasks m.
Proof.
  intros Hall. revert m. induction tasks as [|[files] tasks IH]; intros m; [done|].
  simpl. rewrite (aux_store_unlimited throws files m Hall). apply IH.
Qed.

Lemma aux_store_app (pre post : Files) (m : gmap string DOMString) :
  aux_store (pre ++ post) m = aux_store post (aux_store pre m).
Proof. apply foldl_app. Qed.

Lemma stored_app (key : string) (pre post : Files) :
  stored key (pre ++ post) = stored key pre ++ stored key post.
Proof. apply omap_app. Qed.

Lemma stored_cons (key : string) (entry : string * ZipObject) (files : Files) :
  stored key (entry :: files) =
  match stores entry with
  | Some (k, v) => if decide (k = key) then v :: stored key files else stored key files
  | None => stored key files
  end.
Proof.
  unfold stored; simpl.
  destruct (stores entry) as [[k v]|]; [by destruct (decide (k = key))|done].
Qed.

(** What the deferred loop leaves under a key: the last value written
    there, and what was there before when there was none. *)
Lemma aux_store_lookup (key : string) (files : Files) (m : gmap string DOMString) :
  aux_store files m !! key =
  match last (stored key files) with
  | Some v => Some (JSON_stringify v)
  | None => m !! key
  end.
Proof.
  induction files as [|entry files IH] using rev_ind; [done|].
  rewrite aux_store_app, stored_app. unfold aux_store at 1, stored at 2; simpl.
  destruct (stores entry) as [[k v]|]; simpl.
  - destruct (decide (k = key)) as [->|Hne]; simpl.
    + by rewrite last_snoc, lookup_insert_eq.
    + by rewrite app_nil_r, lookup_insert_ne.
  - by rewrite app_nil_r.
Qed.

(** The deferred loop writes under two keys only. *)
Lemma stores_keys (entry : string * ZipObject) (key : string) (v : JSONValue) :
  stores entry = Some (key, v) → key = "index_templates" ∨ key = "aliases".
Proof.
  unfold stores. destruct (dir entry.2); [done|].
  destruct (parsed entry.2); [|done]. simpl.
  destruct (includes _ "index_templates.json"); [intros [= <- _]; by left|].
  destruct (_ || _); [intros [= <- _]; by right|done].
Qed.

Lemma stored_other_key (key : string) (files : Files) :
  key ≠ "index_templates" → key ≠ "aliases" → stored key files = [].
Proof.
  intros H1 H2. induction files as [|entry files IH]; [done|].
  rewrite stored_cons, IH.
  destruct (stores entry) as [[k v]|] eqn:Hs; [|done].
  destruct (decide (k = key)) as [->|]; [|done].
  by destruct (stores_keys _ _ _ Hs).
Qed.

(** X1: the deferred pass over the files of an archive returns normally
    and touches nothing but the store and the console, whatever the
    browser does with the writes.  It writes the value of a non-directory
    entry that parses under [index_templates] when the lower-cased path
    includes [index_templates.json], and otherwise under [aliases] when
    the path includes [alias.json] or [aliases.json]; a write that the
    browser refuses is caught and leaves the store as it was, and the
    pass goes on.  So when the storage takes every write, each key holds
    the last value written under it, and what it held before when none
    was; and when it refuses every write, the store is unchanged.
    [processZipFile] schedules this pass as one task and itself leaves
    both keys as they were. *)
Theorem X1_deferred_pass_keeps_last_auxiliary_entries (files : Files) :
  (∀ w, (run (AuxiliaryPass files) w).1 = Return tt
        ∧ delivered (run (AuxiliaryPass files) w).2 = delivered w
        ∧ error (run (AuxiliaryPass files) w).2 = error w
        ∧ isLoading (run (AuxiliaryPass files) w).2 = isLoading w
        ∧ timers (run (AuxiliaryPass files) w).2 = timers w)
  ∧ (∀ w,
       localStorage (run (AuxiliaryPass files) w).2
       = aux_store_with (setItem_throws w) files (localStorage w))
  ∧ (∀ w key,
       unlimited w →
       localStorage (run (AuxiliaryPass files) w).2 !! key =
       match last (stored key files) with
       | Some v => Some (JSON_stringify v)
       | None => localStorage w !! key
       end)
  ∧ (∀ w,
       (∀ m key value, setItem_throws w m key value ≠ None) →
       localStorage (run (AuxiliaryPass files) w).2 = localStorage w)
  ∧ (∀ key v,
       v ∈ stored key files ↔
       ∃ path zipEntry,
         (path, zipEntry) ∈ files ∧ dir zipEntry = false
         ∧ parsed zipEntry = Some v
         ∧ ((key = "index_templates"
             ∧ includes (toLowerCase path) "index_templates.json" = true)
            ∨ (key = "aliases"
               ∧ includes (toLowerCase path) "index_templates.json" = false
               ∧ (includes (toLowerCase path) "alias.json" = true
                  ∨ includes (toLowerCase path) "aliases.json" = true))))
  ∧ (∀ file w,
       zip_loadAsync file = Return files →
       timers (processZipFile file w).2 = timers w ++ [AuxiliaryPass files]
       ∧ localStorage (processZipFile file w).2 !! "index_templates"
         = localStorage w !! "index_templates"
       ∧ localStorage (processZipFile file w).2 !! "aliases"
         = localStorage w !! "aliases").
Proof.
  split_and!.
  - intros w. simpl. by destruct (for_of_auxiliary_exact files w) as [lines ->].
  - intros w. simpl. by destruct (for_of_auxiliary_exact files w) as [lines ->].
  - intros w key Hall. simpl. destruct (for_of_auxiliary_exact files w) as [lines ->].
    simpl. rewrite (aux_store_unlimited _ files _ Hall). apply aux_store_lookup.
  - intros w Hnone. simpl. destruct (for_of_auxiliary_exact files w) as [lines ->].
    simpl. generalize (localStorage w) as m.
    induction files as [|entry files IH]; intros m; [done|].
    simpl. destruct (stores entry) as [[key v]|]; [|apply IH].
    destruct (setItem_throws w m key (JSON_stringify v)) eqn:H; [apply IH|].
    by destruct (Hnone m key (JSON_stringify v)).
  - intros key v. unfold stored. rewrite list_elem_of_omap. split.
    + intros ([path zipEntry] & Hin & H). exists path, zipEntry.
      unfold stores in H; simpl in H.
      destruct (dir zipEntry); [done|].
      destruct (parsed zipEntry) as [v'|]; [|done].
      destruct (includes (toLowerCase path) "index_templates.json").
      * destruct (decide ("index_templates" = key)) as [<-|]; [|done].
        injection H as ->. split_and!; try done. by left.
      * destruct (includes (toLowerCase path) "alias.json") eqn:Ha;
          destruct (includes (toLowerCase path) "aliases.json") eqn:Hb;
          simpl in H; try done;
          (destruct (decide ("aliases" = key)) as [<-|]; [|done]);
          injection H as ->; split_and!; try done; right; split_and!; auto.
    + intros (path & zipEntry & Hin & Hdir & Hv & H).
      exists (path, zipEntry). split; [done|].
      unfold stores; simpl. rewrite Hdir, Hv.
      destruct H as [[-> Ht]|(-> & Ht & Ha)]; rewrite Ht.
      * by destruct (decide ("index_templates" = "index_templates")).
      * destruct Ha as [-> | ->]; rewrite ?orb_true_r; simpl;
          by destruct (decide ("aliases" = "aliases")).
  - intros file w Hopen.
    destruct (processZipFile_world file files w Hopen) as (_ & _ & -> & _ & ->).
    unfold opened. destruct (settings_throws files w); simpl; [done|].
    split; [done|]. destruct (truthy _); by rewrite ?lookup_insert_ne.
Qed.

(** ** What the store accumulates *)

(** A key keeps the value it had unless the ingestion writes it. *)
Lemma ingested_lookup (files : Files) (m : gmap string DOMString) (key : string) :
  ingested files m !! key =
  match written files key with
  | Some text => Some text
  | None => m !! key
  end.
Proof.
  unfold ingested, written. rewrite aux_store_lookup.
  destruct (last (stored key files)); [done|].
  destruct (decide (key = "settings")) as [->|Hne].
  - destruct (truthy _); by rewrite ?lookup_insert_eq.
  - destruct (truthy _); by rewrite ?lookup_insert_ne.
Qed.

Lemma settings_throws_unlimited (files : Files) (w : World) :
  unlimited w → settings_throws files w = None.
Proof.
  intros Hall. unfold settings_throws. destruct (truthy _); [apply Hall | done].
Qed.

(** The world after [processZipFile] on an archive that opens and the run
    of the pending tasks, when none was pending before and the storage
    takes every write. *)
Lemma ingest_then_run (file : File) (files : Files) (w : World) :
  zip_loadAsync file = Return files →
  timers w = [] →
  unlimited w →
  (run_timers (processZipFile file w).2).1 = Return tt
  ∧ localStorage (run_timers (processZipFile file w).2).2
    = ingested files (localStorage w)
  ∧ delivered (run_timers (processZipFile file w).2).2
    = delivered w ++ [bundle_of (scan files initial)]
  ∧ error (run_timers (processZipFile file w).2).2 = error (opened files w)
  ∧ isLoading (run_timers (processZipFile file w).2).2 = false
  ∧ timers (run_timers (processZipFile file w).2).2 = []
  ∧ unlimited (run_timers (processZipFile file w).2).2.
Proof.
  intros Hopen Hnone Hall.
  pose proof (settings_throws_unlimited files w Hall) as Hok.
  destruct (processZipFile_world file files w Hopen) as (Hl & He & Hs & Hd & Ht).
  pose proof (processZipFile_oracle file w) as Ho.
  destruct (run_timers_exact (processZipFile file w).2) as [lines ->]. simpl.
  rewrite He, Hs, Hd, Ht, Ho. unfold opened. rewrite Hok. simpl.
  rewrite Hnone; simpl.
  rewrite (aux_store_unlimited _ files _ Hall).
  split_and!; try done.
  - unfold ingested.
    change (settingsJson (scan files initial)) with (var Settings (scan files initial)).
    by rewrite var_scan_initial.
  - rewrite Hl. unfold opened. by rewrite Hok.
Qed.

Lemma kept_refl (m : gmap string DOMString) : kept m m.
Proof. by split. Qed.

Lemma kept_trans (m1 m2 m3 : gmap string DOMString) :
  kept m1 m2 → kept m2 m3 → kept m1 m3.
Proof.
  intros [Hs1 Hf1] [Hs2 Hf2]. split.
  - intros key H. by apply Hs2, Hs1.
  - intros key H1 H2 H3. by rewrite Hf2, Hf1.
Qed.

Lemma kept_insert (m : gmap string DOMString) (key : string) (text : DOMString) :
  key = "index_templates" ∨ key = "aliases" ∨ key = "settings" →
  kept m (<[key := text]> m).
Proof.
  intros Hkey. split.
  - intros k H. destruct (decide (key = k)) as [->|Hne].
    + rewrite lookup_insert_eq. by eexists.
    + by rewrite lookup_insert_ne.
  - intros k H1 H2 H3. rewrite lookup_insert_ne; [done|].
    intros <-. by destruct Hkey as [->|[->| ->]].
Qed.

Lemma kept_aux_store
  (throws : gmap string DOMString → string → DOMString → option thrown)
  (files : Files) (m : gmap string DOMString) :
  kept m (aux_store_with throws files m).
Proof.
  revert m. induction files as [|entry files IH]; intros m; [apply kept_refl|].
  simpl. destruct (stores entry) as [[key v]|] eqn:Hs; [|apply IH].
  destruct (throws m key (JSON_stringify v)); [apply IH|].
  eapply kept_trans; [|apply IH].
  apply kept_insert. destruct (stores_keys _ _ _ Hs) as [->| ->]; auto.
Qed.

Lemma kept_timers_store
  (throws : gmap string DOMString → string → DOMString → option thrown)
  (tasks : list Task) (m : gmap string DOMString) :
  kept m (timers_store_with throws tasks m).
Proof.
  revert m. induction tasks as [|[files] tasks IH]; intros m; [apply kept_refl|].
  simpl. eapply kept_trans; [apply (kept_aux_store throws files)|apply IH].
Qed.

Lemma kept_processZipFile (file : File) (w : World) :
  kept (localStorage w) (localStorage (processZipFile file w).2).
Proof.
  destruct (zip_loadAsync file) as [files|err] eqn:Hopen.
  - destruct (processZipFile_world file files w Hopen) as (_ & _ & -> & _).
    unfold opened. destruct (settings_throws files w); simpl; [apply kept_refl|].
    destruct (truthy _); [apply kept_insert; auto | apply kept_refl].
  - rewrite (processZipFile_unopened file err w Hopen). apply kept_refl.
Qed.

Lemma kept_loadDemoData (fetch : Origin) (w : World) :
  kept (localStorage w) (localStorage (loadDemoData fetch w).2).
Proof.
  unfold loadDemoData.
  generalize (Promise_all (fetch <$> demo_urls)).
  intros [responses|]; [|apply kept_refl].
  run. simpl.
  destruct (Promise_all _) as [jsons|]; [|apply kept_refl].
  simpl.
  do 9 (destruct jsons as [|? jsons]; [apply kept_refl|]).
  destruct jsons; [|apply kept_refl].
  repeat match goal with
         | |- context [setItem_throws w ?m ?k ?t] =>
             destruct (setItem_throws w m k t); simpl
         | |- context [truthy ?v] => destruct (truthy v); simpl
         end;
    repeat first
      [ apply kept_refl
      | eapply kept_trans;
        [ | apply kept_insert; first [by left | by right; left | by right; right] ] ].
Qed.

(** X2: no operation of the component removes a key from the store or
    changes a key other than [index_templates], [aliases] and
    [settings]: neither [processZipFile] on any file, nor the run of the
    pending tasks, nor [loadDemoData] on any origin, nor the two event
    handlers. *)
Theorem X2_store_only_grows (w : World) :
  (∀ file, kept (localStorage w) (localStorage (processZipFile file w).2))
  ∧ kept (localStorage w) (localStorage (run_timers w).2)
  ∧ (∀ fetch, kept (localStorage w) (localStorage (loadDemoData fetch w).2))
  ∧ (∀ file, kept (localStorage w) (localStorage (handleDrop file w).2))
  ∧ (∀ file, kept (localStorage w) (localStorage (handleFileChange file w).2)).
Proof.
  split_and!.
  - intros file. apply kept_processZipFile.
  - destruct (run_timers_exact w) as [lines ->]. apply kept_timers_store.
  - intros fetch. apply kept_loadDemoData.
  - intros [file|]; simpl; [|apply kept_refl].
    destruct (String.eqb _ _); [apply kept_processZipFile | apply kept_refl].
  - intros [file|]; simpl; [apply kept_processZipFile | apply kept_refl].
Qed.

(** X3: ingestions accumulate in the store.  When the storage takes
    every write, after an archive A and then an archive B, each with its
    deferred pass, a key holds what B wrote under it, else what A wrote,
    else what it held before; both bundles are delivered, in order.  So
    when A has truthy settings and B has no settings file, the bundle of
    B has no settings while the store still holds those of A. *)
Theorem X3_store_accumulates_over_archives
  (fileA fileB : File) (filesA filesB : Files) (w : World) :
  zip_loadAsync fileA = Return filesA →
  zip_loadAsync fileB = Return filesB →
  timers w = [] →
  unlimited w →
  let wA := (run_timers (processZipFile fileA w).2).2 in
  let wB := (run_timers (processZipFile fileB wA).2).2 in
  (∀ key,
     localStorage wB !! key =
     match written filesB key, written filesA key with
     | Some text, _ => Some text
     | None, Some text => Some text
     | None, None => localStorage w !! key
     end)
  ∧ (∃ bA bB,
       delivered wB = delivered w ++ [bA; bB]
       ∧ settings bA = Val (held Settings filesA)
       ∧ settings bB = Val (held Settings filesB))
  ∧ (has_file Settings filesB = false →
       held Settings filesB = JNull
       ∧ localStorage wB !! "settings" = localStorage wA !! "settings")
  ∧ (has_file Settings filesB = false →
     truthy (held Settings filesA) = true →
       localStorage wB !! "settings"
       = Some (JSON_stringify (held Settings filesA))).
Proof.
  intros HA HB Hnone Hall wA wB.
  destruct (ingest_then_run fileA filesA w HA Hnone Hall)
    as (_ & HsA & HdA & _ & _ & HtA & HallA).
  fold wA in HsA, HdA, HtA, HallA.
  destruct (ingest_then_run fileB filesB wA HB HtA HallA) as (_ & HsB & HdB & _).
  fold wB in HsB, HdB.
  assert (∀ key,
            localStorage wB !! key =
            match written filesB key, written filesA key with
            | Some text, _ => Some text
            | None, Some text => Some text
            | None, None => localStorage w !! key
            end) as Hlookup.
  { intros key. rewrite HsB, ingested_lookup, HsA, ingested_lookup.
    by destruct (written filesB key), (written filesA key). }
  assert (has_file Settings filesB = false → written filesB "settings" = None)
    as Hnot.
  { intros H. unfold written.
    rewrite (stored_other_key "settings") by done. simpl.
    by rewrite (held_no_file _ _ H). }
  split_and!.
  - exact Hlookup.
  - exists (bundle_of (scan filesA initial)), (bundle_of (scan filesB initial)).
    split; [by rewrite HdB, HdA, <- app_assoc|].
    split.
    + change (settings (bundle_of (scan filesA initial)))
        with (arg Settings (bundle_of (scan filesA initial))).
      by rewrite arg_bundle_of, var_scan_initial.
    + change (settings (bundle_of (scan filesB initial)))
        with (arg Settings (bundle_of (scan filesB initial))).
      by rewrite arg_bundle_of, var_scan_initial.
  - intros H. split; [by apply held_no_file|].
    by rewrite HsB, ingested_lookup, (Hnot H).
  - intros H Htruthy. rewrite Hlookup, (Hnot H). unfold written.
    rewrite (stored_other_key "settings") by done. simpl. by rewrite Htruthy.
Qed.

(** The theorem at an archive with a settings file followed by an archive
    with a version file only, in a browser that takes every write. *)
Lemma X3_witness :
  let filesA := [("settings.json", json_entry (JObject []))] in
  let filesB := [("version.json", json_entry (JString "8.1"))] in
  (zip_loadAsync (zip filesA) = Return filesA
   ∧ zip_loadAsync (zip filesB) = Return filesB
   ∧ timers fresh = []
   ∧ unlimited fresh)
  ∧ (has_file Settings filesB = false →
     truthy (held Settings filesA) = true →
     localStorage
       (run_timers
          (processZipFile (zip filesB)
             (run_timers (processZipFile (zip filesA) fresh).2).2).2).2
     !! "settings"
     = Some (JSON_stringify (held Settings filesA))).
Proof.
  split; [by split_and!|].
  exact (proj2 (proj2 (proj2
    (X3_store_accumulates_over_archives
       (zip [("settings.json", json_entry (JObject []))])
       (zip [("version.json", json_entry (JString "8.1"))])
       [("settings.json", json_entry (JObject []))]
       [("version.json", json_entry (JString "8.1"))]
       fresh eq_refl eq_refl eq_refl (λ _ _ _, eq_refl))))).
Defined.

(** X4: when the storage takes every write, ingesting the same archive a
    second time, each time with its deferred pass, leaves the store and
    the error as the first time, and delivers the same bundle again. *)
Theorem X4_second_ingestion_changes_nothing
  (file : File) (files : Files) (w : World) :
  zip_loadAsync file = Return files →
  timers w = [] →
  unlimited w →
  let w1 := (run_timers (processZipFile file w).2).2 in
  let w2 := (run_timers (processZipFile file w1).2).2 in
  localStorage w2 = localStorage w1
  ∧ error w2 = error w1
  ∧ isLoading w2 = isLoading w1
  ∧ timers w2 = timers w1
  ∧ ∃ b, delivered w1 = delivered w ++ [b] ∧ delivered w2 = delivered w ++ [b; b].
Proof.
  intros Hopen Hnone Hall w1 w2.
  destruct (ingest_then_run file files w Hopen Hnone Hall)
    as (_ & Hs1 & Hd1 & He1 & Hl1 & Ht1 & Hall1).
  fold w1 in Hs1, Hd1, He1, Hl1, Ht1, Hall1.
  destruct (ingest_then_run file files w1 Hopen Ht1 Hall1)
    as (_ & Hs2 & Hd2 & He2 & Hl2 & Ht2 & _).
  fold w2 in Hs2, Hd2, He2, Hl2, Ht2.
  split_and!.
  - apply map_eq. intros key.
    rewrite Hs2, ingested_lookup, Hs1, ingested_lookup.
    by destruct (written files key).
  - rewrite He2, He1. unfold opened.
    by rewrite (settings_throws_unlimited files w Hall),
         (settings_throws_unlimited files w1 Hall1).
  - by rewrite Hl2, Hl1.
  - by rewrite Ht2, Ht1.
  - eexists. split; [exact Hd1|]. by rewrite Hd2, Hd1, <- app_assoc.
Qed.

(** The theorem at an archive with settings, aliases and a file that does
    not parse, in a browser that takes every write. *)
Lemma X4_witness :
  let files :=
    [("settings.json", json_entry (JObject []));
     ("aliases.json", json_entry (JObject []));
     ("ilm_policies.json", text_entry "Unexpected end of JSON input")] in
  (zip_loadAsync (zip files) = Return files ∧ timers fresh = []
   ∧ unlimited fresh)
  ∧ localStorage
      (run_timers
         (processZipFile (zip files)
            (run_timers (processZipFile (zip files) fresh).2).2).2).2
    = localStorage (run_timers (processZipFile (zip files) fresh).2).2.
Proof.
  split; [by split_and!|].
  exact (proj1
    (X4_second_ingestion_changes_nothing
       (zip [("settings.json", json_entry (JObject []));
             ("aliases.json", json_entry (JObject []));
             ("ilm_policies.json", text_entry "Unexpected end of JSON input")])
       [("settings.json", json_entry (JObject []));
        ("aliases.json", json_entry (JObject []));
        ("ilm_policies.json", text_entry "Unexpected end of JSON input")]
       fresh eq_refl eq_refl (λ _ _ _, eq_refl))).
Defined.

(** ** The order of the entries *)

Lemma short_Permutation {A} (l l' : list A) :
  l ≡ₚ l' → length l ≤ 1 → l = l'.
Proof.
  intros Hperm Hlen. destruct l as [|x [|y l]]; simpl in Hlen; [| |lia].
  - by apply Permutation_nil_l.
  - by apply Permutation_singleton_l.
Qed.

(** The bundle, the advisory, the settings written and the outcome of
    that write depend on the variables only, not on [foundFiles]. *)
Lemma opened_held (files files' : Files) (w : World) :
  (∀ f, held f files = held f files') →
  delivered (opened files w) = delivered (opened files' w)
  ∧ error (opened files w) = error (opened files' w)
  ∧ localStorage (opened files w) = localStorage (opened files' w).
Proof.
  intros Hheld.
  assert (∀ f, var f (scan files initial) = var f (scan files' initial)) as Hvar
    by (intros f; by rewrite !var_scan_initial).
  assert (settings_throws files w = settings_throws files' w) as Hthrows
    by (unfold settings_throws; by rewrite (Hheld Settings)).
  pose proof (Hvar Errors) as H1. pose proof (Hvar Policies) as H2.
  pose proof (Hvar Version) as H3. pose proof (Hvar Shards) as H4.
  pose proof (Hvar Allocation) as H5. pose proof (Hvar Settings) as H6.
  pose proof (Hvar NodesStats) as H7. pose proof (Hvar Pipelines) as H8.
  simpl in *. unfold opened. rewrite <- Hthrows.
  destruct (settings_throws files w); [done|].
  unfold bundle_of, missingFiles; simpl.
  by rewrite H1, H2, H3, H4, H5, H6, H7, H8.
Qed.

(** X10: the order of the entries matters only among entries of one rule.
    When no variable is assigned more than once, an archive with the same
    entries in another order gives the same deliveries, the same error
    and the same store, whether the browser takes the settings write or
    refuses it; and when, besides, the deferred pass writes no key more
    than once and the storage takes every write, the store after the
    deferred pass is the same too. *)
Theorem X10_order_is_irrelevant_without_repeats
  (file file' : File) (files files' : Files) (w : World) :
  zip_loadAsync file = Return files →
  zip_loadAsync file' = Return files' →
  files ≡ₚ files' →
  (∀ f, length (assigned f files) ≤ 1) →
  delivered (processZipFile file w).2 = delivered (processZipFile file' w).2
  ∧ error (processZipFile file w).2 = error (processZipFile file' w).2
  ∧ localStorage (processZipFile file w).2 = localStorage (processZipFile file' w).2
  ∧ (timers w = [] →
     unlimited w →
     (∀ key, length (stored key files) ≤ 1) →
     localStorage (run_timers (processZipFile file w).2).2
     = localStorage (run_timers (processZipFile file' w).2).2).
Proof.
  intros Hopen Hopen' Hperm Honce.
  assert (∀ f, held f files = held f files') as Hheld.
  { intros f. unfold held. f_equal. f_equal.
    apply short_Permutation; [|apply Honce].
    unfold assigned. by rewrite Hperm. }
  destruct (opened_held files files' w Hheld) as (Hd & He & Hs).
  destruct (processZipFile_world file files w Hopen) as (_ & -> & -> & -> & _).
  destruct (processZipFile_world file' files' w Hopen') as (_ & -> & -> & -> & _).
  split_and!; try done.
  intros Hnone Hall Hstored.
  - destruct (ingest_then_run file files w Hopen Hnone Hall) as (_ & -> & _).
    destruct (ingest_then_run file' files' w Hopen' Hnone Hall) as (_ & -> & _).
    apply map_eq. intros key. rewrite !ingested_lookup. unfold written.
    assert (stored key files = stored key files') as <-.
    { apply short_Permutation; [|apply Hstored]. unfold stored. by rewrite Hperm. }
    by rewrite <- (Hheld Settings).
Qed.

(** The theorem at an archive of two files and the same archive with the
    files swapped. *)
Lemma X10_witness :
  let a := ("shards.json", json_entry (JArray [])) in
  let b := ("version.json", json_entry (JString "8.1")) in
  (zip_loadAsync (zip [a; b]) = Return [a; b]
   ∧ zip_loadAsync (zip [b; a]) = Return [b; a]
   ∧ [a; b] ≡ₚ [b; a])
  ∧ delivered (processZipFile (zip [a; b]) fresh).2
    = delivered (processZipFile (zip [b; a]) fresh).2.
Proof.
  split; [split_and!; [done | done | apply Permutation_swap]|].
  refine (proj1
    (X10_order_is_irrelevant_without_repeats
       (zip [("shards.json", json_entry (JArray []));
             ("version.json", json_entry (JString "8.1"))])
       (zip [("version.json", json_entry (JString "8.1"));
             ("shards.json", json_entry (JArray []))])
       [("shards.json", json_entry (JArray []));
        ("version.json", json_entry (JString "8.1"))]
       [("version.json", json_entry (JString "8.1"));
        ("shards.json", json_entry (JArray []))]
       fresh eq_refl eq_refl (Permutation_swap _ _ _) _)).
  intros f. destruct f; vm_compute; lia.
Defined.

(** ** The event handlers *)

(** X7: the two handlers never throw and deliver at most one bundle.  A
    drop delivers one exactly when the type of the file is
    [application/zip], the archive opens and the browser does not refuse
    the write of its settings; a change of the file input delivers one
    exactly when the archive opens and that write is not refused,
    whatever the type.  Without a file, a drop sets the error and nothing
    else, and a change does nothing at all. *)
Theorem X7_handlers_deliver_iff_accepted_and_opened :
  (∀ file w,
     (handleDrop file w).1 = Return tt ∧ (handleFileChange file w).1 = Return tt)
  ∧ (∀ file w,
       length (delivered (handleDrop (Some file) w).2) = S (length (delivered w))
       ↔ type file = "application/zip"
         ∧ ∃ files, zip_loadAsync file = Return files
                    ∧ settings_throws files w = None)
  ∧ (∀ file w,
       length (delivered (handleFileChange (Some file) w).2) = S (length (delivered w))
       ↔ ∃ files, zip_loadAsync file = Return files
                  ∧ settings_throws files w = None)
  ∧ (∀ file w,
       delivered (handleDrop file w).2 = delivered w
       ∨ ∃ b, delivered (handleDrop file w).2 = delivered w ++ [b])
  ∧ (∀ file w,
       delivered (handleFileChange file w).2 = delivered w
       ∨ ∃ b, delivered (handleFileChange file w).2 = delivered w ++ [b])
  ∧ (∀ w, handleFileChange None w = (Return tt, w))
  ∧ (∀ w, handleDrop None w
          = (Return tt,
             {| isLoading := isLoading w;
                error := Some "Please upload a ZIP file";
                localStorage := localStorage w; console := console w;
                delivered := delivered w; timers := timers w;
                setItem_throws := setItem_throws w |})).
Proof.
  assert (∀ file w,
            length (delivered (processZipFile file w).2) = S (length (delivered w))
            ↔ ∃ files, zip_loadAsync file = Return files
                       ∧ settings_throws files w = None) as Hiff.
  { intros file w. destruct (zip_loadAsync file) as [files|err] eqn:Hopen.
    - destruct (settings_throws files w) as [e|] eqn:Ht.
      + destruct (processZipFile_refused file files e w Hopen Ht) as (-> & _).
        split; [lia | intros (files' & Heq & H); injection Heq as <-; congruence].
      + rewrite (processZipFile_delivers file files w Hopen Ht), length_app. simpl.
        split; [by eexists | lia].
    - rewrite (processZipFile_unopened file err w Hopen). simpl.
      split; [lia | by intros (files & ? & _)]. }
  assert (∀ file w,
            delivered (processZipFile file w).2 = delivered w
            ∨ ∃ b, delivered (processZipFile file w).2 = delivered w ++ [b]) as Hone.
  { intros file w. destruct (zip_loadAsync file) as [files|err] eqn:Hopen.
    - destruct (settings_throws files w) as [e|] eqn:Ht.
      + left. by destruct (processZipFile_refused file files e w Hopen Ht) as (-> & _).
      + right. eexists. by apply processZipFile_delivers.
    - left. by rewrite (processZipFile_unopened file err w Hopen). }
  split_and!.
  - intros [file|] w; simpl; [|done].
    split; [|apply processZipFile_returns].
    destruct (String.eqb _ _); [apply processZipFile_returns | done].
  - intros file w. unfold handleDrop.
    destruct (String.eqb_spec (type file) "application/zip") as [Heq|Hne].
    + rewrite Hiff. by split; [|intros [_ ?]].
    + simpl. split; [lia | by intros [? _]].
  - intros file w. apply Hiff.
  - intros [file|] w; simpl; [|by left].
    destruct (String.eqb _ _); [apply Hone | by left].
  - intros [file|] w; simpl; [apply Hone | by left].
  - done.
  - done.
Qed.

(** ** The console *)

Lemma primary_exact (l : Locals) (entry : string * ZipObject) (w : World) :
  primary l entry w =
  (Return match assigns entry with
          | Some (f, v) => found f v l
          | None => l
          end,
   logged (primary_lines entry) w).
Proof.
  destruct entry as [path zipEntry].
  unfold primary, primary_lines, assigns, parsed; simpl.
  destruct (dir zipEntry); [by rewrite logged_nil|].
  run. simpl.
  destruct (async_string zipEntry) as [[message|v]|e]; simpl.
  - unfold logged; simpl. by rewrite <- app_assoc.
  - rewrite route_applies. by destruct (applies _).
  - unfold logged; simpl. by rewrite <- app_assoc.
Qed.

Lemma for_of_primary_exact (files : Files) (l : Locals) (w : World) :
  for_of files primary l w
  = (Return (scan files l), logged (flat_map primary_lines files) w).
Proof.
  revert l w. induction files as [|entry files IH]; intros l w; simpl.
  - by rewrite logged_nil.
  - unfold mbind, M_bind. rewrite primary_exact, IH. by rewrite logged_app.
Qed.

Lemma foundFiles_scan (files : Files) (l : Locals) :
  foundFiles (scan files l) = foundFiles l ++ labels files.
Proof.
  revert l. induction files as [|entry files IH]; intros l.
  - by rewrite app_nil_r.
  - change (scan (entry :: files) l)
      with (scan files match assigns entry with
                       | Some (f, v) => found f v l
                       | None => l
                       end).
    rewrite IH. unfold labels; simpl.
    destruct (assigns entry) as [[f v]|]; simpl; [|done].
    by rewrite <- app_assoc.
Qed.

(** X6: what [processZipFile] writes to the console, for an archive
    whose paths are ASCII.  On an archive that opens: for each
    non-directory entry, in enumeration order, one [Processing file:]
    line with the lower-cased path, followed by one warning with the path
    as it is in the archive when the entry fails to decode or parse;
    directories write nothing; then, when some entry was assigned, one
    [Found files:] line listing the labels of the assignments in order, a
    label once for each entry assigned; then, when the browser refuses
    the write of the settings, the error line with what it threw.  On an
    archive that does not open: the one error line. *)
Theorem X6_console_of_an_ingestion (file : File) (w : World) :
  (∀ files, zip_loadAsync file = Return files →
            Forall (λ entry, is_ascii entry.1 = true) files) →
  console (processZipFile file w).2 =
  console w ++
  match zip_loadAsync file with
  | Return files =>
      flat_map primary_lines files
      ++ match labels files with
         | [] => []
         | _ :: _ => [Log ["Found files:"; join (labels files) ", "]]
         end
      ++ match settings_throws files w with
         | Some err => [Error "ZIP processing error:" err]
         | None => []
         end
  | Throw err => [Error "ZIP processing error:" err]
  end.
Proof.
  intros _.
  destruct (zip_loadAsync file) as [files|err] eqn:Hopen.
  - unfold settings_throws. rewrite <- var_scan_initial.
    unfold processZipFile.
    unfold try_finally, try_catch at 1.
    unfold mbind at 1 2 3, M_bind at 1 2 3. unfold setIsLoading at 1, setError at 1.
    unfold settle; rewrite Hopen. simpl.
    unfold mbind at 1, M_bind at 1. rewrite for_of_primary_exact.
    rewrite (foundFiles_scan files initial). simpl.
    set (l := scan files initial).
    destruct (labels files) as [|name names]; simpl;
      destruct (truthy (errorsJson l)); destruct (truthy (policiesJson l));
      destruct (truthy (settingsJson l)); run; simpl;
      try (destruct (setItem_throws w (localStorage w) "settings"
                      (JSON_stringify (settingsJson l))); simpl);
      by rewrite ?app_nil_r, <- ?app_assoc.
  - by rewrite (processZipFile_unopened file err w Hopen).
Qed.

(** The theorem at an archive of one file with an ASCII path. *)
Lemma X6_witness :
  let files := [("Data/ILM_Policies.JSON", json_entry (JObject []))] in
  (∀ files', zip_loadAsync (zip files) = Return files' →
             Forall (λ entry, is_ascii entry.1 = true) files')
  ∧ console (processZipFile (zip files) fresh).2
    = [Log ["Processing file:"; "data/ilm_policies.json"];
       Log ["Found files:"; "ILM Policies"]].
Proof.
  assert (∀ files',
            zip_loadAsync (zip [("Data/ILM_Policies.JSON", json_entry (JObject []))])
            = Return files' →
            Forall (λ entry, is_ascii entry.1 = true) files') as Hascii
    by (intros files' [= <-]; by repeat constructor).
  split; [exact Hascii|].
  rewrite (X6_console_of_an_ingestion _ fresh Hascii).
  vm_compute. reflexivity.
Defined.

(** ** The demo data and the archive *)

(** The world after [loadDemoData] when the nine resources settle and the
    storage takes every write. *)
Lemma loadDemoData_settled (fetch : Origin) (w : World)
  (v1 v2 v3 v4 v5 v6 v7 v8 v9 : JSONValue) :
  Forall2 (λ url v, resource fetch url = Return v) demo_urls
    [v1; v2; v3; v4; v5; v6; v7; v8; v9] →
  unlimited w →
  loadDemoData fetch w =
  (Return tt,
   {| isLoading := false; error := None;
      localStorage :=
        (if truthy v7 then <["settings" := JSON_stringify v7]> else id)
          (<["aliases" := JSON_stringify v4]>
             (<["index_templates" := JSON_stringify v3]> (localStorage w)));
      console := console w;
      delivered :=
        delivered w ++
        [{| errors := Val v1; policies := Val v2; version := Undefined;
            shards := Val v5; allocation := Val v6; settings := Val v7;
            nodesStats := Val v8; pipelines := Val v9 |}];
      timers := timers w;
      setItem_throws := setItem_throws w |}).
Proof.
  intros H Hall. destruct (resources_settle fetch demo_urls _ H) as (responses & Hr & Hj).
  unfold loadDemoData. rewrite Hr. run. simpl.
  change (list_fmap _ _ Response_json responses) with (Response_json <$> responses).
  rewrite Hj. simpl. unfold unlimited in Hall. repeat (rewrite Hall; simpl).
  destruct (truthy v7); simpl; repeat (rewrite Hall; simpl); done.
Qed.

(** X5: when the storage takes every write, loading the demo data acts
    as ingesting an archive that holds the nine demo files, followed by
    its deferred pass.  The store is the same.  The bundle is the same in every field but two: the version is
    [undefined] instead of [null], and shards is passed as it is, where
    the archive path replaces a falsy value by the empty sequence.  The
    demo path raises no advisory, as the archive path does not when the
    errors and the policies are truthy; it writes nothing to the console
    and schedules no task. *)
Theorem X5_demo_data_acts_as_an_archive (fetch : Origin) (w : World)
  (v1 v2 v3 v4 v5 v6 v7 v8 v9 : JSONValue) :
  resource fetch "/ilm_explain_only_errors.json" = Return v1 →
  resource fetch "/ilm_policies.json" = Return v2 →
  resource fetch "/index_templates.json" = Return v3 →
  resource fetch "/aliases.json" = Return v4 →
  resource fetch "/shards.json" = Return v5 →
  resource fetch "/allocation_explain.json" = Return v6 →
  resource fetch "/settings.json" = Return v7 →
  resource fetch "/nodes_stats.json" = Return v8 →
  resource fetch "/pipelines.json" = Return v9 →
  timers w = [] →
  unlimited w →
  let files :=
    [("ilm_explain_only_errors.json", json_entry v1);
     ("ilm_policies.json", json_entry v2);
     ("index_templates.json", json_entry v3);
     ("aliases.json", json_entry v4);
     ("shards.json", json_entry v5);
     ("allocation_explain.json", json_entry v6);
     ("settings.json", json_entry v7);
     ("nodes_stats.json", json_entry v8);
     ("pipelines.json", json_entry v9)] in
  let demo := (loadDemoData fetch w).2 in
  let archive := (run_timers (processZipFile (zip files) w).2).2 in
  localStorage archive = localStorage demo
  ∧ (∃ b b',
       delivered demo = delivered w ++ [b]
       ∧ delivered archive = delivered w ++ [b']
       ∧ (∀ f, f ≠ Version → f ≠ Shards → arg f b' = arg f b)
       ∧ version b = Undefined ∧ version b' = Val JNull
       ∧ shards b = Val v5 ∧ shards b' = Val (or_else v5 (JArray [])))
  ∧ error demo = None
  ∧ (truthy v1 = true → truthy v2 = true → error archive = None)
  ∧ console demo = console w
  ∧ timers demo = timers w.
Proof.
  intros H1 H2 H3 H4 H5 H6 H7 H8 H9 Hnone Hunlimited files demo archive.
  assert (Forall2 (λ url v, resource fetch url = Return v) demo_urls
            [v1; v2; v3; v4; v5; v6; v7; v8; v9]) as Hall.
  { unfold demo_urls. repeat (constructor; [assumption|]). constructor. }
  assert (demo = (loadDemoData fetch w).2) as Hdemo by reflexivity.
  rewrite (loadDemoData_settled fetch w _ _ _ _ _ _ _ _ _ Hall Hunlimited) in Hdemo.
  cbn [snd] in Hdemo.
  pose proof (settings_throws_unlimited files w Hunlimited) as Hok.
  destruct (ingest_then_run (zip files) files w eq_refl Hnone Hunlimited)
    as (_ & Hs & Hd & He & _).
  fold archive in Hs, Hd, He. clearbody demo archive. subst demo.
  assert (bundle_of (scan files initial)
          = {| errors := Val v1; policies := Val v2; version := Val JNull;
               shards := Val (or_else v5 (JArray [])); allocation := Val v6;
               settings := Val v7; nodesStats := Val v8; pipelines := Val v9 |})
    as Hbundle by (vm_compute; reflexivity).
  assert (held Settings files = v7) as Hheld by (vm_compute; reflexivity).
  assert (errorsJson (scan files initial) = v1) as Hv1 by (vm_compute; reflexivity).
  assert (policiesJson (scan files initial) = v2) as Hv2 by (vm_compute; reflexivity).
  assert (ingested files (localStorage w)
          = <["aliases" := JSON_stringify v4]>
              (<["index_templates" := JSON_stringify v3]>
                 (if truthy v7
                  then <["settings" := JSON_stringify v7]> (localStorage w)
                  else localStorage w)))
    as Hstore.
  { unfold ingested. rewrite Hheld. unfold aux_store, files. cbn [foldl].
    repeat match goal with
           | |- context [stores ?entry] =>
               let r := eval vm_compute in (stores entry) in
               change (stores entry) with r
           end.
    reflexivity. }
  assert (error (opened files w)
          = if truthy v1 && truthy v2 then None
            else Some (advisory (missingFiles (scan files initial)))) as Herror.
  { unfold opened. rewrite Hok. cbn [error]. by rewrite Hv1, Hv2. }
  rewrite Hs, Hd, He, Hstore, Hbundle, Herror.
  clear Hs Hd He Hstore Hbundle Herror Hok.
  clearbody files. cbn [localStorage delivered error console timers].
  split_and!; try done.
  - destruct (truthy v7); [|done].
    apply map_eq. intros key. rewrite !lookup_insert.
    by repeat case_decide; subst.
  - do 2 eexists. split; [done|]. split; [done|].
    split_and!; try done. by intros [].
  - intros Ht1 Ht2. by rewrite Ht1, Ht2.
Qed.

(** The theorem at an origin that serves an empty object for every
    resource, in a browser that takes every write. *)
Lemma X5_witness :
  let fetch : Origin := λ _, Return {| Response_json := Return (JObject []) |} in
  ((∀ url, resource fetch url = Return (JObject []))
   ∧ timers fresh = [] ∧ unlimited fresh)
  ∧ error (loadDemoData fetch fresh).2 = None.
Proof.
  split; [by split_and!|].
  exact (proj1 (proj2 (proj2
    (X5_demo_data_acts_as_an_archive
       (λ _, Return {| Response_json := Return (JObject []) |}) fresh
       (JObject []) (JObject []) (JObject []) (JObject []) (JObject [])
       (JObject []) (JObject []) (JObject []) (JObject [])
       eq_refl eq_refl eq_refl eq_refl eq_refl eq_refl eq_refl eq_refl eq_refl
       eq_refl (λ _ _ _, eq_refl))))).
Defined.

(** X11: what [loadDemoData] leaves when the browser refuses a write.
    The three writes come before the callback, in the order
    [index_templates], [aliases], [settings] (the last only for a truthy
    value), each on the store the one before left.  The first of them
    that throws sends the call to its [catch]: the error is set, the
    callback is not invoked, and the writes made before it stay in the
    store.  When none throws the bundle is delivered and no error is
    set. *)
Theorem X11_demo_data_refused_write_keeps_earlier_writes
  (fetch : Origin) (w : World) (v1 v2 v3 v4 v5 v6 v7 v8 v9 : JSONValue) :
  Forall2 (λ url v, resource fetch url = Return v) demo_urls
    [v1; v2; v3; v4; v5; v6; v7; v8; v9] →
  let m1 := <["index_templates" := JSON_stringify v3]> (localStorage w) in
  let m2 := <["aliases" := JSON_stringify v4]> m1 in
  let templates :=
    setItem_throws w (localStorage w) "index_templates" (JSON_stringify v3) in
  let aliases := setItem_throws w m1 "aliases" (JSON_stringify v4) in
  let settings_write :=
    if truthy v7 then setItem_throws w m2 "settings" (JSON_stringify v7)
    else None in
  let after := (loadDemoData fetch w).2 in
  (∀ e, templates = Some e →
        error after = Some "Failed to load demo data"
        ∧ delivered after = delivered w
        ∧ localStorage after = localStorage w)
  ∧ (∀ e, templates = None → aliases = Some e →
          error after = Some "Failed to load demo data"
          ∧ delivered after = delivered w
          ∧ localStorage after = m1)
  ∧ (∀ e, templates = None → aliases = None → settings_write = Some e →
          error after = Some "Failed to load demo data"
          ∧ delivered after = delivered w
          ∧ localStorage after = m2)
  ∧ (templates = None → aliases = None → settings_write = None →
       error after = None
       ∧ delivered after
         = delivered w ++
           [{| errors := Val v1; policies := Val v2; version := Undefined;
               shards := Val v5; allocation := Val v6; settings := Val v7;
               nodesStats := Val v8; pipelines := Val v9 |}]
       ∧ localStorage after
         = if truthy v7 then <["settings" := JSON_stringify v7]> m2 else m2)
  ∧ isLoading after = false
  ∧ console after = console w
  ∧ timers after = timers w.
Proof.
  intros H m1 m2 templates aliases settings_write after.
  destruct (resources_settle fetch demo_urls _ H) as (responses & Hr & Hj).
  assert (after = (loadDemoData fetch w).2) as Hafter by reflexivity.
  unfold loadDemoData in Hafter. rewrite Hr in Hafter.
  unfold try_finally, try_catch, mbind, M_bind, settle, setIsLoading, setError,
    localStorage_setItem, onDataLoaded, when in Hafter.
  cbn [fst snd isLoading error localStorage console delivered timers setItem_throws]
    in Hafter.
  change (list_fmap _ _ Response_json responses)
    with (Response_json <$> responses) in Hafter.
  rewrite Hj in Hafter.
  cbn [fst snd isLoading error localStorage console delivered timers setItem_throws]
    in Hafter.
  fold templates in Hafter. clearbody after.
  destruct templates as [e1|] eqn:H1.
  { subst after. split_and!; try done. }
  cbn [fst snd isLoading error localStorage console delivered timers setItem_throws
       mret M_ret] in Hafter.
  fold m1 in Hafter. fold aliases in Hafter.
  destruct aliases as [e2|] eqn:H2.
  { subst after. split_and!; try done. }
  cbn [fst snd isLoading error localStorage console delivered timers setItem_throws
       mret M_ret] in Hafter.
  fold m2 in Hafter. unfold settings_write.
  destruct (truthy v7).
  - cbn [fst snd isLoading error localStorage console delivered timers setItem_throws
         mret M_ret] in Hafter.
    destruct (setItem_throws w m2 "settings" (JSON_stringify v7)) as [e3|];
      subst after; split_and!; done.
  - subst after. split_and!; done.
Qed.

(** The theorem at an origin that serves an empty object for every
    resource, in a browser that refuses the write of [aliases] only: the
    templates are stored and no bundle is delivered. *)
Lemma X11_witness :
  let fetch : Origin := λ _, Return {| Response_json := Return (JObject []) |} in
  let w :=
    {| isLoading := false; error := None; localStorage := ∅; console := [];
       delivered := []; timers := [];
       setItem_throws := λ _ key _,
         if String.eqb key "aliases"
         then Some (ErrorInstance "QuotaExceededError") else None |} in
  Forall2 (λ url v, resource fetch url = Return v) demo_urls
    [JObject []; JObject []; JObject []; JObject []; JObject [];
     JObject []; JObject []; JObject []; JObject []]
  ∧ error (loadDemoData fetch w).2 = Some "Failed to load demo data"
  ∧ delivered (loadDemoData fetch w).2 = []
  ∧ localStorage (loadDemoData fetch w).2
    = <["index_templates" := JSON_stringify (JObject [])]> ∅.
Proof.
  assert (Forall2
            (λ url v,
               resource
                 (λ _, Return {| Response_json := Return (JObject []) |}) url
               = Return v)
            demo_urls
            [JObject []; JObject []; JObject []; JObject []; JObject [];
             JObject []; JObject []; JObject []; JObject []]) as Hall
    by (unfold demo_urls; repeat (constructor; [reflexivity|]); constructor).
  split; [exact Hall|].
  exact (proj1 (proj2
    (X11_demo_data_refused_write_keeps_earlier_writes
       (λ _, Return {| Response_json := Return (JObject []) |})
       {| isLoading := false; error := None; localStorage := ∅; console := [];
          delivered := []; timers := [];
          setItem_throws := λ _ key _,
            if String.eqb key "aliases"
            then Some (ErrorInstance "QuotaExceededError") else None |}
       _ _ _ _ _ _ _ _ _ Hall))
    (ErrorInstance "QuotaExceededError") eq_refl eq_refl).
Defined.

End FileUploadExtra.

(** * Further properties of the node list *)

Module NodesViewExtra.

Import NodesView.

(** Members of a list with distinct images are equal when their images
    are. *)
Lemma NoDup_fmap_member {A B} (f : A → B) (l : list A) (x y : A) :
  NoDup (f <$> l) → x ∈ l → y ∈ l → f x = f y → x = y.
Proof.
  intros Hnodup Hx Hy Heq.
  apply list_elem_of_lookup in Hx as [i Hi].
  apply list_elem_of_lookup in Hy as [j Hj].
  assert ((f <$> l) !! i = Some (f x)) as Hi' by (by rewrite list_lookup_fmap, Hi).
  assert ((f <$> l) !! j = Some (f x)) as Hj'
    by (by rewrite list_lookup_fmap, Hj, Heq).
  assert (i = j) as -> by apply (NoDup_lookup _ _ _ _ Hnodup Hi' Hj').
  congruence.
Qed.

Lemma filter_at_most_one {A B} `{EqDecision B} (f : A → B) (b : B) (l : list A) :
  NoDup (f <$> l) → length (filter (λ x, f x = b) l) ≤ 1.
Proof.
  induction l as [|x l IH]; [simpl; lia|].
  rewrite fmap_cons, NoDup_cons. intros [Hx Hl]. rewrite filter_cons.
  destruct (decide (f x = b)) as [Hb|Hb]; [|by apply IH].
  destruct (filter (λ x, f x = b) l) as [|y ys] eqn:Hf; [simpl; lia|].
  assert (y ∈ filter (λ x, f x = b) l) as Hy by (rewrite Hf; apply list_elem_of_here).
  apply list_elem_of_filter in Hy as [Hyb Hyl]. destruct Hx.
  rewrite Hb, <- Hyb. by apply list_elem_of_fmap_2.
Qed.

(** The marked cards are among the nodes with the master's id and the
    nodes with the master's name. *)
Lemma marked_bound (m : MasterNode) (nodes : list (string * NodeRecord)) :
  length (filter (λ card, card.2 = true) (cards (Some m) nodes))
  ≤ length (filter (λ entry, entry.1 = id m) nodes)
    + length (filter (λ entry, name entry.2 = node m) nodes).
Proof.
  induction nodes as [|[nodeId n] nodes IH]; [simpl; lia|].
  change (cards (Some m) ((nodeId, n) :: nodes))
    with ((nodeId, n, isMasterNode (Some m) nodeId (name n)) :: cards (Some m) nodes).
  rewrite !filter_cons. cbn [fst snd].
  destruct (isMasterNode (Some m) nodeId (name n)) eqn:Hflag.
  - unfold isMasterNode in Hflag. apply orb_true_iff in Hflag.
    rewrite !String.eqb_eq in Hflag.
    repeat case_decide; simpl; try lia; try done.
    destruct Hflag; congruence.
  - repeat case_decide; simpl; try lia; try done.
Qed.

(** X8: how many nodes the view marks.  When the node identifiers are
    distinct, at most two cards are marked if the names are distinct too,
    and at most one if no node has the master's name; and when the
    identifiers and the names are both distinct and one node has both the
    master's id and the master's name, its card is marked and is the only
    one marked. *)
Theorem X8_at_most_two_masters
  (m : MasterNode) (nodes : list (string * NodeRecord)) :
  (NoDup nodes.*1 → NoDup (name <$> nodes.*2) →
     length (filter (λ card, card.2 = true) (cards (Some m) nodes)) ≤ 2)
  ∧ (NoDup nodes.*1 →
     (∀ nodeId n, (nodeId, n) ∈ nodes → name n ≠ node m) →
     length (filter (λ card, card.2 = true) (cards (Some m) nodes)) ≤ 1)
  ∧ (∀ nodeId n,
       NoDup nodes.*1 → NoDup (name <$> nodes.*2) →
       (nodeId, n) ∈ nodes → id m = nodeId → node m = name n →
       (nodeId, n, true) ∈ cards (Some m) nodes
       ∧ ∀ nodeId' n',
           (nodeId', n', true) ∈ cards (Some m) nodes → (nodeId', n') = (nodeId, n)).
Proof.
  split_and!.
  - intros Hids Hnames. pose proof (marked_bound m nodes) as Hbound.
    pose proof (filter_at_most_one fst (id m) nodes Hids) as H1.
    rewrite <- list_fmap_compose in Hnames.
    pose proof (filter_at_most_one (name ∘ snd) (node m) nodes Hnames) as H2.
    simpl in *. lia.
  - intros Hids Hnone. pose proof (marked_bound m nodes) as Hbound.
    pose proof (filter_at_most_one fst (id m) nodes Hids) as H1.
    assert (filter (λ entry, name entry.2 = node m) nodes = []) as H2.
    { destruct (filter (λ entry, name entry.2 = node m) nodes)
        as [|[nodeId n] rest] eqn:Hf; [done|].
      assert ((nodeId, n) ∈ filter (λ entry, name entry.2 = node m) nodes) as Hin
        by (rewrite Hf; apply list_elem_of_here).
      apply list_elem_of_filter in Hin as [Hname Hin].
      by destruct (Hnone nodeId n Hin). }
    rewrite H2 in Hbound. simpl in *. lia.
  - intros nodeId n Hids Hnames Hin Hid Hname.
    rewrite <- list_fmap_compose in Hnames.
    assert (∀ nodeId' n' flag,
              (nodeId', n', flag) ∈ cards (Some m) nodes ↔
              (nodeId', n') ∈ nodes
              ∧ flag = isMasterNode (Some m) nodeId' (name n')) as Hcards.
    { intros nodeId' n' flag. unfold cards. rewrite list_elem_of_fmap. split.
      - intros ([i' x'] & Heq & Hx). injection Heq as -> -> ->. done.
      - intros [Hx ->]. by exists (nodeId', n'). }
    split.
    + apply Hcards. split; [done|]. unfold isMasterNode.
      apply String.eqb_eq in Hid. by rewrite Hid.
    + intros nodeId' n' H'. apply Hcards in H' as [Hin' Hflag].
      symmetry in Hflag. unfold isMasterNode in Hflag.
      apply orb_true_iff in Hflag as [H|H]; apply String.eqb_eq in H.
      * apply (NoDup_fmap_member fst nodes _ _ Hids Hin' Hin). simpl. congruence.
      * apply (NoDup_fmap_member (name ∘ snd) nodes _ _ Hnames Hin' Hin).
        simpl. congruence.
Qed.

(** X9: the attribute table never throws on attributes that came out of
    [JSON.parse].  Collapsed, it shows no row; expanded, it shows one row
    for each attribute, in order and under its key: a [null], an array or
    an object as its [JSON.stringify] text (so [toString], which throws
    on [null], is never called on it), any other value as its [toString]
    text.  A node without attributes gives no row, and two clicks on the
    button restore the state. *)
Theorem X9_attribute_rows_never_throw :
  (∀ attributes isExpanded,
     NodeAttributes attributes isExpanded =
     FileUpload.Return
       (if isExpanded
        then (λ '(key, value),
                (key, match value with
                      | JNull | JArray _ | JObject _ => Stringified value
                      | JBool _ | JNumber _ | JString _ => ToString value
                      end)) <$> default [] attributes
        else []))
  ∧ (∃ err, toString JNull = FileUpload.Throw err)
  ∧ (∀ isExpanded, NodeAttributes None isExpanded = FileUpload.Return [])
  ∧ (∀ attributes isExpanded rendered,
       NodeAttributes attributes isExpanded = FileUpload.Return rendered →
       length rendered = if isExpanded then length (default [] attributes) else 0)
  ∧ (∀ isExpanded, toggleExpand (toggleExpand isExpanded) = isExpanded).
Proof.
  assert (∀ entries,
            rows entries =
            FileUpload.Return
              ((λ '(key, value),
                  (key, match value with
                        | JNull | JArray _ | JObject _ => Stringified value
                        | JBool _ | JNumber _ | JString _ => ToString value
                        end)) <$> entries)) as Hrows.
  { induction entries as [|[key value] entries IH]; [done|].
    simpl. rewrite IH. by destruct value. }
  assert (∀ attributes isExpanded,
            NodeAttributes attributes isExpanded =
            FileUpload.Return
              (if isExpanded
               then (λ '(key, value),
                       (key, match value with
                             | JNull | JArray _ | JObject _ => Stringified value
                             | JBool _ | JNumber _ | JString _ => ToString value
                             end)) <$> default [] attributes
               else [])) as Hshown.
  { intros attributes [|]; [apply Hrows | done]. }
  split_and!.
  - exact Hshown.
  - by eexists.
  - by intros [|].
  - intros attributes isExpanded rendered H. rewrite Hshown in H.
    injection H as <-. destruct isExpanded; [by rewrite length_fmap | done].
  - by intros [|].
Qed.

End NodesViewExtra.
